(** * The Stockfish chess session controller (src/App.tsx)

    A shallow embedding of the React component [StockfishChess] and of the
    helpers [parseBestMove] and [fetchBestMove]: JavaScript strings as lists
    of UTF-16 code units, the component's hooks as a record of state plus
    the memoised callbacks of the latest render, Chess objects in a store
    (they are mutated in place by [game.move] and shared by closures), and
    the asynchronous oracle call as an issue step and a later settle step. *)

From Stdlib Require Import List Bool Arith NArith ZArith Lia String Ascii.
Import ListNotations.

Set Implicit Arguments.

(* ================================================================== *)
(** * JavaScript strings *)
(* ================================================================== *)

Module JS.

(** A JavaScript string is a sequence of UTF-16 code units. *)
Definition jsstring := list N.

(** An ASCII literal of the source as code units. *)
Definition lit (s : string) : jsstring :=
  map N_of_ascii (list_ascii_of_string s).

Fixpoint eqb (s t : jsstring) : bool :=
  match s, t with
  | [], [] => true
  | c :: s', d :: t' => N.eqb c d && eqb s' t'
  | _, _ => false
  end.

Definition opt_eqb (s t : option jsstring) : bool :=
  match s, t with
  | None, None => true
  | Some x, Some y => eqb x y
  | _, _ => false
  end.

Definition between (lo hi c : N) : bool := N.leb lo c && N.leb c hi.

(** The class matched by [\s] and removed by [trim]: WhiteSpace and
    LineTerminator of ECMAScript (TAB, LF, VT, FF, CR, SP, NBSP, U+1680,
    U+2000-U+200A, LS, PS, U+202F, U+205F, U+3000, U+FEFF). *)
Definition isWhiteSpace (c : N) : bool :=
  between 9 13 c || N.eqb c 32 || N.eqb c 160 || N.eqb c 5760
  || between 8192 8202 c || N.eqb c 8232 || N.eqb c 8233
  || N.eqb c 8239 || N.eqb c 8287 || N.eqb c 12288 || N.eqb c 65279.

Fixpoint trimStart (s : jsstring) : jsstring :=
  match s with
  | c :: s' => if isWhiteSpace c then trimStart s' else s
  | [] => []
  end.

Definition trimEnd (s : jsstring) : jsstring := rev (trimStart (rev s)).

(** [s.trim()] *)
Definition trim (s : jsstring) : jsstring := trimEnd (trimStart s).

(** [s.split(/\s+/)]: the pieces of [s] between maximal runs of white
    space. [inws] records that the scan is inside such a run, [cur] is the
    piece being read. A separator at either end leaves an empty piece
    there, and the empty string splits into one empty piece. *)
Fixpoint split_go (inws : bool) (cur : jsstring) (s : jsstring) : list jsstring :=
  match s with
  | [] => [cur]
  | c :: s' =>
      if isWhiteSpace c
      then (if inws then split_go true [] s' else cur :: split_go true [] s')
      else split_go false (cur ++ [c]) s'
  end.

Definition split_ws (s : jsstring) : list jsstring := split_go false [] s.

(** [String.prototype.toLowerCase], one code unit at a time. The letters
    A-Z, and the two code points outside ASCII whose lower case has an
    ASCII letter (KELVIN SIGN, and LATIN CAPITAL I WITH DOT ABOVE, which
    becomes i followed by U+0307), are mapped; the lower case of every
    other cased letter lies outside ASCII, where the only use made of the
    result, a comparison with an ASCII literal, fails either way, so those
    code units are left as they are. *)
Definition lowerUnit (c : N) : jsstring :=
  if between 65 90 c then [c + 32]%N
  else if N.eqb c 8490 then [107]%N
  else if N.eqb c 304 then [105; 775]%N
  else [c].

Definition toLowerCase (s : jsstring) : jsstring := flat_map lowerUnit s.

(** [arr.findIndex(p)], with [None] for -1. *)
Fixpoint findIndex {A} (p : A -> bool) (l : list A) : option nat :=
  match l with
  | [] => None
  | x :: l' => if p x then Some 0
               else match findIndex p l' with
                    | Some i => Some (S i)
                    | None => None
                    end
  end.

(** Truthiness of [arr[i]] for an array of strings: the index is in range
    and the string there is not empty. *)
Definition truthy_at (l : list jsstring) (i : nat) : option jsstring :=
  match nth_error l i with
  | Some (c :: s) => Some (c :: s)
  | _ => None
  end.

(** [s.slice(i, j)] for [0 <= i <= j]. *)
Definition slice (i j : nat) (s : jsstring) : jsstring :=
  firstn (j - i) (skipn i s).

(** [s[i]], a string of one code unit, or undefined. *)
Definition charAt (i : nat) (s : jsstring) : option jsstring :=
  match nth_error s i with
  | Some c => Some [c]
  | None => None
  end.

(** Decimal text of a natural number, as [String(n)] and template
    literals print it. *)
Fixpoint digits_go (fuel : nat) (n : N) (acc : jsstring) : jsstring :=
  match fuel with
  | O => acc
  | S fuel' =>
      let acc' := (48 + N.modulo n 10)%N :: acc in
      if N.ltb n 10 then acc' else digits_go fuel' (N.div n 10) acc'
  end.

Definition decimal (n : N) : jsstring := digits_go (S (N.to_nat (N.log2 n))) n [].

End JS.

Import JS.

(* ================================================================== *)
(** * parseBestMove *)
(* ================================================================== *)

Definition is_file (c : N) : bool := between 97 104 c.      (* [a-h] *)
Definition is_rank (c : N) : bool := between 49 56 c.       (* [1-8] *)
Definition is_promo (c : N) : bool :=                       (* [qrbn] *)
  N.eqb c 113 || N.eqb c 114 || N.eqb c 98 || N.eqb c 110.

(** [/^[a-h][1-8][a-h][1-8][qrbn]?$/.test(uci)] *)
Definition uci_regex_test (uci : jsstring) : bool :=
  match uci with
  | [f1; r1; f2; r2] => is_file f1 && is_rank r1 && is_file f2 && is_rank r2
  | [f1; r1; f2; r2; p] =>
      is_file f1 && is_rank r1 && is_file f2 && is_rank r2 && is_promo p
  | _ => false
  end.

Definition parseBestMove (best : option jsstring) : option jsstring :=
  match best with
  | None | Some [] => None                        (* if (!best) return null *)
  | Some best =>
      let parts := split_ws (trim best) in
      let idx := findIndex (fun p => JS.eqb (toLowerCase p) (lit "bestmove")) parts in
      let uci :=
        match idx with
        | Some i =>
            match truthy_at parts (i + 1) with
            | Some next => next
            | None => nth 0 parts []
            end
        | None => nth 0 parts []
        end in
      if uci_regex_test uci then Some uci else None
  end.

(** ** The move token as the specification words it

    The definitions below follow the words of the specification, to be
    compared with [parseBestMove]: the words of a text, equality of words
    up to the case of ASCII letters, the candidate token, and the shape of
    a coordinate token. *)

(** The words of a text: its maximal runs of code units that are not
    white space, in order. *)
Fixpoint words_go (cur : jsstring) (s : jsstring) : list jsstring :=
  match s with
  | [] => match cur with
          | [] => []
          | _ => [cur]
          end
  | c :: s' =>
      if isWhiteSpace c
      then match cur with
           | [] => words_go [] s'
           | _ => cur :: words_go [] s'
           end
      else words_go (cur ++ [c]) s'
  end.

Definition words (s : jsstring) : list jsstring := words_go [] s.

(** Two code units are the same letter up to case: they are equal, or one
    is an ASCII capital and the other the small letter for it. *)
Definition same_letter (c d : N) : bool :=
  N.eqb c d
  || (between 65 90 c && N.eqb (c + 32) d)
  || (between 65 90 d && N.eqb (d + 32) c).

Fixpoint ci_eqb (s t : jsstring) : bool :=
  match s, t with
  | [], [] => true
  | c :: s', d :: t' => same_letter c d && ci_eqb s' t'
  | _, _ => false
  end.

(** The word that follows the first word equal to bestmove up to case. *)
Fixpoint word_after_bestmove (ws : list jsstring) : option jsstring :=
  match ws with
  | [] => None
  | w :: rest =>
      if ci_eqb w (lit "bestmove") then hd_error rest
      else word_after_bestmove rest
  end.

(** The candidate token of a text: the word following bestmove, otherwise
    the first word (the empty string when the text has no word). *)
Definition candidate (s : jsstring) : jsstring :=
  match word_after_bestmove (words s) with
  | Some w => w
  | None => hd [] (words s)
  end.

(** A coordinate token: file, rank, file, rank, and possibly one of the
    promotion letters q, r, b, n; four or five characters. *)
Definition uci_token (u : jsstring) : Prop :=
  exists f1 r1 f2 r2 p,
    u = [f1; r1; f2; r2] ++ p
    /\ (97 <= f1 <= 104)%N /\ (49 <= r1 <= 56)%N
    /\ (97 <= f2 <= 104)%N /\ (49 <= r2 <= 56)%N
    /\ (p = [] \/ p = lit "q" \/ p = lit "r" \/ p = lit "b" \/ p = lit "n").

(** A small ASCII letter other than i and k: no code unit outside A-Z has
    it in its lower case. *)
Definition plain_small (x : N) : bool :=
  between 97 122 x && negb (N.eqb x 105) && negb (N.eqb x 107).

(** A text trimmed at its end: the last code unit is not white space (vacuously for the empty
    string: the default 0 is not white space). *)
Definition no_trailing (s : jsstring) : Prop := isWhiteSpace (last s 0%N) = false.

Definition no_leading (s : jsstring) : Prop :=
  match s with
  | [] => True
  | c :: _ => isWhiteSpace c = false
  end.

(* ================================================================== *)
(** * The oracle reply, as [fetchBestMove] reads it *)
(* ================================================================== *)

(** A JavaScript number, here always one read from a JSON text; the
    controller stores and shows such numbers and never computes on them. *)
Record number := { num : Z; den : positive }.

(** The value of a member of a parsed JSON object, as far as the source
    tells values apart ([typeof] number, [typeof] string, null). *)
Inductive Member :=
| MNum (n : number)
| MStr (s : jsstring)
| MNull
| MOther.                                   (* a boolean, an array or an object *)

(** A parsed JSON value other than [null]: an object with its members in
    the order of the text, or a value with no member of its own read here
    (a number, a string, a boolean, an array). *)
Inductive Json :=
| JObj (fields : list (jsstring * Member))
| JOther.

(** A JavaScript value as the component stores it: [None] is undefined. *)
Definition JsValue := option Member.

Fixpoint lookup_last (k : jsstring) (fields : list (jsstring * Member)) : JsValue :=
  match fields with
  | [] => None
  | (k', v) :: rest =>
      match lookup_last k rest with
      | Some v' => Some v'
      | None => if JS.eqb k k' then Some v else None
      end
  end.

(** [json.k]: the member of an object (the last one when the text repeats
    the key), undefined otherwise. *)
Definition prop (json : Json) (k : jsstring) : JsValue :=
  match json with
  | JObj fields => lookup_last k fields
  | JOther => None
  end.

(** What is caught by [catch (e: any)]: only [e?.message] is read. *)
Record Thrown := { message : option jsstring }.

(** The body of a response: [res.json()] rejects, or the text is the JSON
    value null so that reading a member of it throws a TypeError (in both
    cases [e] is what is thrown), or it parses to some other value. *)
Inductive Body :=
| BodyThrows (e : Thrown)
| BodyJson (json : Json).

(** How the awaited [fetch] ends. *)
Inductive HttpReply :=
| FetchRejects (e : Thrown)
| Response (status : N) (body : Body).

(** [res.ok]: the status is in the range 200-299. *)
Definition res_ok (status : N) : bool := between 200 299 status.

Record BestMove := { eval : option number; mate : JsValue; bestUci : option jsstring }.

Inductive Completion (A : Type) :=
| Returns (a : A)
| Throws (e : Thrown).
Arguments Returns {A} a.
Arguments Throws {A} e.

(** [Math.min(depth, 15)] *)
Definition capDepth (depth : Z) : Z := Z.min depth 15.

(** The part of [fetchBestMove] after [await fetch(...)]. *)
Definition fetchBestMove_result (reply : HttpReply) : Completion BestMove :=
  match reply with
  | FetchRejects e => Throws e
  | Response status body =>
      if negb (res_ok status)
      then Throws {| message := Some (lit "Engine HTTP " ++ decimal status) |}
      else match body with
           | BodyThrows e => Throws e
           | BodyJson json =>
               Returns
                 {| eval := match prop json (lit "evaluation") with
                            | Some (MNum n) => Some n
                            | _ => None
                            end;
                    mate := prop json (lit "mate");
                    bestUci := parseBestMove
                                 match prop json (lit "bestmove") with
                                 | Some (MStr s) => Some s
                                 | _ => None
                                 end |}
           end
  end.

(* ================================================================== *)
(** * The rules engine (chess.js), by its interface *)
(* ================================================================== *)

(** A square name such as e2; the type [Square] of chess.js is a string. *)
Definition Square := jsstring.

Inductive Color := White | Black.            (* "w" | "b" *)

Inductive PieceSymbol := Pawn | Knight | Bishop | Rook | Queen | King.

Record Piece := { p_type : PieceSymbol; p_color : Color }.

(** The argument of [game.move({ from, to, promotion })]. *)
Record MoveReq := { from : Square; to : Square; promotion : option jsstring }.

(** How a call of [game.move] ends. The source tests the value returned,
    so a rejected move is a falsy value ([Null]); releases of chess.js
    that throw on an illegal move instead are covered by [Throw]. *)
Inductive MoveResult (C M : Type) :=
| Moved (g : C) (m : M)       (* the object is now [g], the Move [m] is returned *)
| Null
| Throw (e : Thrown).
Arguments Moved {C M} g m.
Arguments Null {C M}.
Arguments Throw {C M} e.

(** chess.js is not among the sources: the controller is embedded over
    any rules engine with the operations it calls. *)
Class RulesEngine := {
  Chess : Type;                               (* the state of a Chess object *)
  Fen : Type;                                 (* the text of [game.fen()] *)
  Move : Type;
  new_chess : Chess;                          (* new Chess() *)
  load : Fen -> Chess;                        (* new Chess(fen) *)
  fen : Chess -> Fen;
  turn : Chess -> Color;
  get : Chess -> Square -> option Piece;
  moves : Chess -> Square -> list Move;       (* game.moves({ square, verbose: true }) *)
  move : Chess -> MoveReq -> MoveResult Chess Move;
  isGameOver : Chess -> bool;
  inCheck : Chess -> bool;
  mv_from : Move -> Square;
  mv_to : Move -> Square;
  mv_promotion : Move -> option PieceSymbol
}.

Definition color_eqb (c d : Color) : bool :=
  match c, d with
  | White, White | Black, Black => true
  | _, _ => false
  end.

Definition symbol_letter (p : PieceSymbol) : jsstring :=
  match p with
  | Pawn => lit "p" | Knight => lit "n" | Bishop => lit "b"
  | Rook => lit "r" | Queen => lit "q" | King => lit "k"
  end.

(** Truthiness of a value of type [Square | null]. *)
Definition truthy (o : option jsstring) : bool :=
  match o with
  | Some (_ :: _) => true
  | _ => false
  end.

(* ================================================================== *)
(** * The helpers of the view: squareColor, chunk, glyph *)
(* ================================================================== *)

(** [const files] and [const ranks] *)
Definition files : list jsstring :=
  [lit "a"; lit "b"; lit "c"; lit "d"; lit "e"; lit "f"; lit "g"; lit "h"].
Definition ranks : list jsstring :=
  [lit "8"; lit "7"; lit "6"; lit "5"; lit "4"; lit "3"; lit "2"; lit "1"].

(** [squareColor(fileIdx, rankIdx)], for the indices of [Array.map]. *)
Definition squareColor (fileIdx rankIdx : nat) : jsstring :=
  if Nat.eqb ((fileIdx + rankIdx) mod 2) 0
  then lit "bg-amber-200" else lit "bg-emerald-700".

(** [const squares = useMemo(...)]: both lists reversed when [flip]. *)
Record Squares := { sq_f : list jsstring; sq_r : list jsstring }.

Definition squares (flip : bool) : Squares :=
  if flip then {| sq_f := rev files; sq_r := rev ranks |}
  else {| sq_f := files; sq_r := ranks |}.

(** [arr.map((x, i) => f(x, i))] *)
Fixpoint mapi_from {A B} (i : nat) (f : A -> nat -> B) (l : list A) : list B :=
  match l with
  | [] => []
  | x :: l' => f x i :: mapi_from (S i) f l'
  end.

Definition mapi {A B} (f : A -> nat -> B) (l : list A) : list B := mapi_from 0 f l.

(** The buttons of the board as the two nested [map] calls produce them:
    for each one the square [`${f}${r}`] it stands for and the class
    [squareColor(fIdx, rIdx)] it gets, row by row. *)
Definition board_buttons (flip : bool) : list (list (jsstring * jsstring)) :=
  mapi (fun r rIdx =>
          mapi (fun f fIdx => (f ++ r, squareColor fIdx rIdx))
               (sq_f (squares flip)))
       (sq_r (squares flip)).

(** [arr.slice(i, j)] for [0 <= i <= j]. *)
Definition slice_of {T} (i j : nat) (arr : list T) : list T :=
  firstn (j - i) (skipn i arr).

(** The loop of [chunk], for a size that is a natural number:
    [for (let i = 0; i < arr.length; i += size) out.push(arr.slice(i, i + size))].
    Each unfolding spends one unit of [fuel] per iteration; [None] means
    that the loop is still running when the fuel is spent. *)
Fixpoint chunk_loop {T} (fuel : nat) (arr : list T) (size i : nat)
    (out : list (list T)) : option (list (list T)) :=
  match fuel with
  | O => if Nat.ltb i (List.length arr) then None else Some out
  | S fuel' =>
      if Nat.ltb i (List.length arr)
      then chunk_loop fuel' arr size (i + size) (out ++ [slice_of i (i + size) arr])
      else Some out
  end.

Definition chunk {T} (fuel : nat) (arr : list T) (size : nat) : option (list (list T)) :=
  chunk_loop fuel arr size 0 [].

(** [String.prototype.toUpperCase], one code unit at a time: the letters
    a-z, and the code points outside ASCII whose upper case contains an
    ASCII letter (sharp s, dotless i, long s, n preceded by apostrophe,
    j with caron, h, t, w, y with a mark and a with right half ring, the
    ligatures ff to st); the upper case of every other cased letter lies
    outside ASCII, where the only use made of the result, the lookup of
    an ASCII key, fails either way, so those code units are left as they
    are. *)
Definition upperUnit (c : N) : jsstring :=
  if between 97 122 c then [c - 32]%N
  else if N.eqb c 223 then [83; 83]%N
  else if N.eqb c 305 then [73]%N
  else if N.eqb c 383 then [83]%N
  else if N.eqb c 329 then [700; 78]%N
  else if N.eqb c 496 then [74; 780]%N
  else if N.eqb c 7830 then [72; 817]%N
  else if N.eqb c 7831 then [84; 776]%N
  else if N.eqb c 7832 then [87; 778]%N
  else if N.eqb c 7833 then [89; 778]%N
  else if N.eqb c 7834 then [65; 702]%N
  else if N.eqb c 64256 then [70; 70]%N
  else if N.eqb c 64257 then [70; 73]%N
  else if N.eqb c 64258 then [70; 76]%N
  else if N.eqb c 64259 then [70; 70; 73]%N
  else if N.eqb c 64260 then [70; 70; 76]%N
  else if N.eqb c 64261 then [83; 84]%N
  else if N.eqb c 64262 then [83; 84]%N
  else [c].

Definition toUpperCase (s : jsstring) : jsstring := flat_map upperUnit s.

(** What reading a member of an object literal gives: the value of an own
    key, a member inherited from [Object.prototype] (not a string), or
    undefined. *)
Inductive Looked :=
| Own (v : jsstring)
| FromPrototype
| Missing.

(** The table [G] of [glyph]: the chess symbols U+2654 to U+265F. *)
Definition G : list (jsstring * jsstring) :=
  [(lit "P", [9817]%N); (lit "N", [9816]%N); (lit "B", [9815]%N);
   (lit "R", [9814]%N); (lit "Q", [9813]%N); (lit "K", [9812]%N);
   (lit "p", [9823]%N); (lit "n", [9822]%N); (lit "b", [9821]%N);
   (lit "r", [9820]%N); (lit "q", [9819]%N); (lit "k", [9818]%N)].

(** The names every object inherits from [Object.prototype]. *)
Definition object_prototype_names : list jsstring :=
  [lit "constructor"; lit "hasOwnProperty"; lit "isPrototypeOf";
   lit "propertyIsEnumerable"; lit "toLocaleString"; lit "toString";
   lit "valueOf"; lit "__proto__"; lit "__defineGetter__";
   lit "__defineSetter__"; lit "__lookupGetter__"; lit "__lookupSetter__"].

Fixpoint own_member (k : jsstring) (table : list (jsstring * jsstring)) : option jsstring :=
  match table with
  | [] => None
  | (k', v) :: rest => if JS.eqb k k' then Some v else own_member k rest
  end.

(** [table[k]] *)
Definition member (table : list (jsstring * jsstring)) (k : jsstring) : Looked :=
  match own_member k table with
  | Some v => Own v
  | None => if existsb (JS.eqb k) object_prototype_names
            then FromPrototype else Missing
  end.

(** [glyph(type, color)] *)
Definition glyph (type : jsstring) (color : Color) : Looked :=
  member G (if color_eqb color White then toUpperCase type else toLowerCase type).

(** ** Notions used to state the properties of the helpers *)

(** The first [n] slices of width [size] of an array. *)
Definition slices {T} (size n : nat) (arr : list T) : list (list T) :=
  map (fun k => slice_of (k * size) (k * size + size) arr) (seq 0 n).

(** The code point of the symbol of a piece: king, queen, rook, bishop,
    knight, pawn, from U+2654 for White and from U+265A for Black. *)
Definition glyph_code (t : PieceSymbol) (c : Color) : N :=
  (9812
   + match t with
     | King => 0 | Queen => 1 | Rook => 2 | Bishop => 3 | Knight => 4 | Pawn => 5
     end
   + match c with
     | White => 0
     | Black => 6
     end)%N.

(** A square name: a file letter a-h and a rank digit 1-8. *)
Definition is_square_name (name : jsstring) : bool :=
  match name with
  | [f; r] => is_file f && is_rank r
  | _ => false
  end.

(** The colour class of a square by its name, a1 being dark. *)
Definition shade_of_name (name : jsstring) : jsstring :=
  match name with
  | [f; r] => if N.odd (f + r) then lit "bg-amber-200" else lit "bg-emerald-700"
  | _ => []
  end.

Definition button_ok (b : jsstring * jsstring) : bool :=
  is_square_name (fst b) && JS.eqb (snd b) (shade_of_name (fst b)).

Fixpoint distinct (l : list jsstring) : bool :=
  match l with
  | [] => true
  | x :: l' => negb (existsb (JS.eqb x) l') && distinct l'
  end.

(* ================================================================== *)
(** * The component StockfishChess *)
(* ================================================================== *)

Section Controller.

Context {RE : RulesEngine}.

(** A reference to a Chess object: its index in the store. *)
Definition ref := nat.

Record EvalInfo := { cp : option number; mateIn : JsValue }.   (* { cp, mate } *)

(** The cells of [useState]. [history_id] stands for the identity of the
    array held in [history]: every [setHistory] installs a new array, and
    the dependency list of [lastFromTo] compares arrays by identity. *)
Record State := {
  game : ref;
  selected : option Square;
  legalTargets : list Square;
  history : list Move;
  history_id : nat;
  engineDepth : Z;
  evalInfo : EvalInfo;
  busy : bool;
  flip : bool;
  error : option jsstring;
  promotionSquare : option Square;
  engineEnabled : bool
}.

(** The variables each callback closes over. A callback made by
    [useCallback] in some render sees the values of that render, [engineMove]
    included (the constant of that same render). *)
Record EngineMoveFn := {
  em_engineEnabled : bool;
  em_game : ref;
  em_engineDepth : Z
}.

Record HandlePromotionFn := {
  hp_promotionSquare : option Square;
  hp_selected : option Square;
  hp_game : ref;
  hp_engineEnabled : bool;
  hp_engineMove : EngineMoveFn
}.

Record OnSquareClickFn := {
  oc_busy : bool;
  oc_isGameOver : bool;
  oc_game : ref;
  oc_promotionSquare : option Square;
  oc_selected : option Square;
  oc_engineEnabled : bool;
  oc_engineMove : EngineMoveFn
}.

Record NewGameFn := {
  ng_engineEnabled : bool;
  ng_engineMove : EngineMoveFn
}.

(** The value of [useMemo(..., [history])] with the dependency it was
    computed for. *)
Record LastFromTo := {
  lf_history_id : nat;
  lf_value : option (Square * Square)
}.

(** What the hooks hold after a render. *)
Record Hooks := {
  handlePromotion_fn : HandlePromotionFn;
  onSquareClick_fn : OnSquareClickFn;
  engineMove_fn : EngineMoveFn;
  newGame_fn : NewGameFn;
  lastFromTo : LastFromTo
}.

(** An [engineMove] call suspended at [await fetchBestMove(curFen, engineDepth)]:
    the query that was sent, and the [game] of the closure, which is all
    the rest of the call reads. *)
Record Request := {
  rq_game : ref;
  rq_fen : Fen;
  rq_depth : Z
}.

(** The callback given to [setTimeout] by [newGame]: it closes over the
    [engineMove] of [newGame]'s closure and over the new object [g]. *)
Record Timer := {
  tm_engineMove : EngineMoveFn;
  tm_g : ref
}.

(** The mounted component between two events. *)
Record Session := {
  st : State;
  heap : list Chess;
  lastMoveRef : option Move;               (* lastMoveRef.current *)
  hooks : Hooks;
  isGameOver_r : bool;                     (* const isGameOver, as last rendered *)
  inflight : list Request;
  timers : list Timer
}.

(** ** The store of Chess objects *)

Definition deref (w : Session) (r : ref) : Chess := nth r (heap w) new_chess.

Fixpoint store (r : ref) (g : Chess) (h : list Chess) : list Chess :=
  match h, r with
  | [], _ => []
  | _ :: h', O => g :: h'
  | x :: h', S r' => x :: store r' g h'
  end.

Definition with_st (f : State -> State) (w : Session) : Session :=
  {| st := f (st w); heap := heap w; lastMoveRef := lastMoveRef w;
     hooks := hooks w; isGameOver_r := isGameOver_r w;
     inflight := inflight w; timers := timers w |}.

(** [game.move] succeeded: the object at [r] is now [g]. *)
Definition mutate (r : ref) (g : Chess) (w : Session) : Session :=
  {| st := st w; heap := store r g (heap w); lastMoveRef := lastMoveRef w;
     hooks := hooks w; isGameOver_r := isGameOver_r w;
     inflight := inflight w; timers := timers w |}.

(** [new Chess(...)]: the new object gets the next reference. *)
Definition alloc (g : Chess) (w : Session) : Session :=
  {| st := st w; heap := heap w ++ [g]; lastMoveRef := lastMoveRef w;
     hooks := hooks w; isGameOver_r := isGameOver_r w;
     inflight := inflight w; timers := timers w |}.

Definition setLastMoveRef (m : option Move) (w : Session) : Session :=
  {| st := st w; heap := heap w; lastMoveRef := m;
     hooks := hooks w; isGameOver_r := isGameOver_r w;
     inflight := inflight w; timers := timers w |}.

Definition setInflight (l : list Request) (w : Session) : Session :=
  {| st := st w; heap := heap w; lastMoveRef := lastMoveRef w;
     hooks := hooks w; isGameOver_r := isGameOver_r w;
     inflight := l; timers := timers w |}.

Definition setTimers (l : list Timer) (w : Session) : Session :=
  {| st := st w; heap := heap w; lastMoveRef := lastMoveRef w;
     hooks := hooks w; isGameOver_r := isGameOver_r w;
     inflight := inflight w; timers := l |}.

(** ** The state setters *)

Definition setGame (r : ref) : Session -> Session :=
  with_st (fun s =>
    {| game := r; selected := selected s; legalTargets := legalTargets s;
       history := history s; history_id := history_id s;
       engineDepth := engineDepth s; evalInfo := evalInfo s; busy := busy s;
       flip := flip s; error := error s; promotionSquare := promotionSquare s;
       engineEnabled := engineEnabled s |}).

Definition setSelected (x : option Square) : Session -> Session :=
  with_st (fun s =>
    {| game := game s; selected := x; legalTargets := legalTargets s;
       history := history s; history_id := history_id s;
       engineDepth := engineDepth s; evalInfo := evalInfo s; busy := busy s;
       flip := flip s; error := error s; promotionSquare := promotionSquare s;
       engineEnabled := engineEnabled s |}).

Definition setLegalTargets (x : list Square) : Session -> Session :=
  with_st (fun s =>
    {| game := game s; selected := selected s; legalTargets := x;
       history := history s; history_id := history_id s;
       engineDepth := engineDepth s; evalInfo := evalInfo s; busy := busy s;
       flip := flip s; error := error s; promotionSquare := promotionSquare s;
       engineEnabled := engineEnabled s |}).

(** [setHistory(prev => f(prev))]; the result is a new array. *)
Definition setHistory (f : list Move -> list Move) : Session -> Session :=
  with_st (fun s =>
    {| game := game s; selected := selected s; legalTargets := legalTargets s;
       history := f (history s); history_id := S (history_id s);
       engineDepth := engineDepth s; evalInfo := evalInfo s; busy := busy s;
       flip := flip s; error := error s; promotionSquare := promotionSquare s;
       engineEnabled := engineEnabled s |}).

Definition setEngineDepth (x : Z) : Session -> Session :=
  with_st (fun s =>
    {| game := game s; selected := selected s; legalTargets := legalTargets s;
       history := history s; history_id := history_id s;
       engineDepth := x; evalInfo := evalInfo s; busy := busy s;
       flip := flip s; error := error s; promotionSquare := promotionSquare s;
       engineEnabled := engineEnabled s |}).

Definition setEvalInfo (x : EvalInfo) : Session -> Session :=
  with_st (fun s =>
    {| game := game s; selected := selected s; legalTargets := legalTargets s;
       history := history s; history_id := history_id s;
       engineDepth := engineDepth s; evalInfo := x; busy := busy s;
       flip := flip s; error := error s; promotionSquare := promotionSquare s;
       engineEnabled := engineEnabled s |}).

Definition setBusy (x : bool) : Session -> Session :=
  with_st (fun s =>
    {| game := game s; selected := selected s; legalTargets := legalTargets s;
       history := history s; history_id := history_id s;
       engineDepth := engineDepth s; evalInfo := evalInfo s; busy := x;
       flip := flip s; error := error s; promotionSquare := promotionSquare s;
       engineEnabled := engineEnabled s |}).

Definition setFlip (f : bool -> bool) : Session -> Session :=
  with_st (fun s =>
    {| game := game s; selected := selected s; legalTargets := legalTargets s;
       history := history s; history_id := history_id s;
       engineDepth := engineDepth s; evalInfo := evalInfo s; busy := busy s;
       flip := f (flip s); error := error s; promotionSquare := promotionSquare s;
       engineEnabled := engineEnabled s |}).

Definition setError (x : option jsstring) : Session -> Session :=
  with_st (fun s =>
    {| game := game s; selected := selected s; legalTargets := legalTargets s;
       history := history s; history_id := history_id s;
       engineDepth := engineDepth s; evalInfo := evalInfo s; busy := busy s;
       flip := flip s; error := x; promotionSquare := promotionSquare s;
       engineEnabled := engineEnabled s |}).

Definition setPromotionSquare (x : option Square) : Session -> Session :=
  with_st (fun s =>
    {| game := game s; selected := selected s; legalTargets := legalTargets s;
       history := history s; history_id := history_id s;
       engineDepth := engineDepth s; evalInfo := evalInfo s; busy := busy s;
       flip := flip s; error := error s; promotionSquare := x;
       engineEnabled := engineEnabled s |}).

Definition setEngineEnabled (f : bool -> bool) : Session -> Session :=
  with_st (fun s =>
    {| game := game s; selected := selected s; legalTargets := legalTargets s;
       history := history s; history_id := history_id s;
       engineDepth := engineDepth s; evalInfo := evalInfo s; busy := busy s;
       flip := flip s; error := error s; promotionSquare := promotionSquare s;
       engineEnabled := f (engineEnabled s) |}).

(** Statements of a handler in the order of the source. *)
Local Notation "w |> f" := (f w) (at level 45, left associativity, only parsing).

(** [setGame(new Chess(game.fen()))] for the object [g] that [game] has
    become. *)
Definition setGame_copy (g : Chess) (w : Session) : Session :=
  w |> alloc (load (fen g)) |> setGame (List.length (heap w)).

(** ** engineMove *)

(** The messages of the two [setError] calls ("엔진이 유효한 수를 주지
    않았음" and "엔진 호출 오류"), as code units. *)
Definition msg_no_valid_move : jsstring :=
  [50644; 51652; 51060; 32; 50976; 54952; 54620; 32; 49688; 47484; 32;
   51452; 51648; 32; 50506; 50520; 51020]%N.

Definition msg_call_failed : jsstring :=
  [50644; 51652; 32; 54840; 52636; 32; 50724; 47448]%N.

(** [engineMove(fenNow)] up to its [await]: the guards, the two setters,
    and the query sent by [fetchBestMove]. *)
Definition engineMove (c : EngineMoveFn) (fenNow : option Fen) (w : Session) : Session :=
  if negb (em_engineEnabled c) then w
  else
    let curFen := match fenNow with
                  | Some f => f
                  | None => fen (deref w (em_game c))
                  end in
    if isGameOver (deref w (em_game c)) then w
    else
      w |> setBusy true |> setError None
        |> setInflight (inflight w ++
             [{| rq_game := em_game c; rq_fen := curFen;
                 rq_depth := capDepth (em_engineDepth c) |}]).

(** [e?.message ?? "엔진 호출 오류"] *)
Definition catch_message (e : Thrown) : jsstring :=
  match message e with
  | Some m => m
  | None => msg_call_failed
  end.

(** The [try] block once the fetch has ended with [reply]: the session as
    the block leaves it, and the exception thrown in it, if any. *)
Definition engineMove_try (rq : Request) (reply : HttpReply) (w : Session)
  : Session * option Thrown :=
  match fetchBestMove_result reply with
  | Throws e => (w, Some e)
  | Returns bm =>
      let w := w |> setEvalInfo {| cp := eval bm; mateIn := mate bm |} in
      match bestUci bm with
      | Some (c :: u) =>
          let bestUci := c :: u in
          let from := slice 0 2 bestUci in
          let to := slice 2 4 bestUci in
          let promo := if Nat.eqb (List.length bestUci) 5 then charAt 4 bestUci else None in
          match move (deref w (rq_game rq)) {| from := from; to := to; promotion := promo |} with
          | Moved g m =>
              (w |> mutate (rq_game rq) g
                 |> setLastMoveRef (Some m)
                 |> setGame_copy g
                 |> setHistory (fun prev => prev ++ [m]), None)
          | Null => (w, None)
          | Throw e => (w, Some e)
          end
      | _ => (w |> setError (Some msg_no_valid_move), None)
      end
  end.

(** The rest of [engineMove] after its [await]: [try], [catch], [finally]. *)
Definition engineMove_resume (rq : Request) (reply : HttpReply) (w : Session) : Session :=
  let (w, thrown) := engineMove_try rq reply w in
  let w := match thrown with
           | Some e => w |> setError (Some (catch_message e))
           | None => w
           end in
  w |> setBusy false.

(** ** handlePromotion *)

Definition handlePromotion (c : HandlePromotionFn) (piece : jsstring) (w : Session) : Session :=
  if negb (truthy (hp_promotionSquare c)) || negb (truthy (hp_selected c)) then w
  else
    match hp_selected c, hp_promotionSquare c with
    | Some selected, Some promotionSquare =>
        match move (deref w (hp_game c))
                   {| from := selected; to := promotionSquare; promotion := Some piece |} with
        | Moved g m =>
            let w := w |> mutate (hp_game c) g
                       |> setLastMoveRef (Some m)
                       |> setPromotionSquare None
                       |> setSelected None
                       |> setLegalTargets []
                       |> setGame_copy g
                       |> setHistory (fun prev => prev ++ [m]) in
            if hp_engineEnabled c
            then engineMove (hp_engineMove c) (Some (fen (deref w (hp_game c)))) w
            else w
        | Null => w
        | Throw _ => w           (* the exception leaves the handler; nothing was set *)
        end
    | _, _ => w
    end.

(** ** onSquareClick *)

Definition own_piece (g : Chess) (piece : option Piece) : bool :=
  match piece with
  | Some p =>
      (color_eqb (turn g) White && color_eqb (p_color p) White)
      || (color_eqb (turn g) Black && color_eqb (p_color p) Black)
  | None => false
  end.

Definition is_some {A} (o : option A) : bool :=
  match o with
  | Some _ => true
  | None => false
  end.

Definition onSquareClick (c : OnSquareClickFn) (sq : Square) (w : Session) : Session :=
  if oc_busy c || oc_isGameOver c then w
  else
    let piece := get (deref w (oc_game c)) sq in
    if truthy (oc_promotionSquare c) then w
    else if own_piece (deref w (oc_game c)) piece then
      w |> setSelected (Some sq)
        |> setLegalTargets (map mv_to (moves (deref w (oc_game c)) sq))
    else if negb (truthy (oc_selected c)) then w
    else
      match oc_selected c with
      | None => w
      | Some selected =>
          let possible := moves (deref w (oc_game c)) selected in
          let targetMove := find (fun m => JS.eqb (mv_to m) sq) possible in
          if match targetMove with
             | Some m => is_some (mv_promotion m)
             | None => false
             end
          then w |> setPromotionSquare (Some sq)
          else
            match move (deref w (oc_game c))
                       {| from := selected; to := sq; promotion := Some (lit "q") |} with
            | Moved g m =>
                let w := w |> mutate (oc_game c) g
                           |> setLastMoveRef (Some m)
                           |> setSelected None
                           |> setLegalTargets []
                           |> setGame_copy g
                           |> setHistory (fun prev => prev ++ [m]) in
                if oc_engineEnabled c
                then engineMove (oc_engineMove c) (Some (fen (deref w (oc_game c)))) w
                else w
            | Null => w
            | Throw _ => w       (* the exception leaves the handler; nothing was set *)
            end
      end.

(** ** newGame *)

Definition newGame (c : NewGameFn) (playAs : Color) (w : Session) : Session :=
  let g := List.length (heap w) in
  let w := w |> alloc new_chess
             |> setGame g
             |> setHistory (fun _ => [])
             |> setSelected None
             |> setLegalTargets []
             |> setEvalInfo {| cp := None; mateIn := Some MNull |}
             |> setError None
             |> setFlip (fun _ => color_eqb playAs Black) in
  if color_eqb playAs Black && ng_engineEnabled c
  then w |> setTimers (timers w ++ [{| tm_engineMove := ng_engineMove c; tm_g := g |}])
  else w.

(** The timer callback: [void engineMove(g.fen())]. *)
Definition timer_callback (t : Timer) (w : Session) : Session :=
  engineMove (tm_engineMove t) (Some (fen (deref w (tm_g t)))) w.

(** ** Rendering *)

Definition make_engineMove (s : State) : EngineMoveFn :=
  {| em_engineEnabled := engineEnabled s; em_game := game s;
     em_engineDepth := engineDepth s |}.

Definition make_handlePromotion (s : State) (em : EngineMoveFn) : HandlePromotionFn :=
  {| hp_promotionSquare := promotionSquare s; hp_selected := selected s;
     hp_game := game s; hp_engineEnabled := engineEnabled s;
     hp_engineMove := em |}.

Definition make_onSquareClick (s : State) (over : bool) (em : EngineMoveFn) : OnSquareClickFn :=
  {| oc_busy := busy s; oc_isGameOver := over; oc_game := game s;
     oc_promotionSquare := promotionSquare s; oc_selected := selected s;
     oc_engineEnabled := engineEnabled s; oc_engineMove := em |}.

Definition make_newGame (s : State) (em : EngineMoveFn) : NewGameFn :=
  {| ng_engineEnabled := engineEnabled s; ng_engineMove := em |}.

Definition make_lastFromTo (s : State) (last : option Move) : LastFromTo :=
  {| lf_history_id := history_id s;
     lf_value := match last with
                 | Some m => Some (mv_from m, mv_to m)
                 | None => None
                 end |}.

(** [Object.is] on two [engineMove] closures. A closure is replaced
    exactly when one of its dependencies changed, and it closes over
    nothing else that varies, so two closures of consecutive renders are
    the same object exactly when they hold the same values. *)
Definition same_engineMove (c d : EngineMoveFn) : bool :=
  Nat.eqb (em_game c) (em_game d)
  && Z.eqb (em_engineDepth c) (em_engineDepth d)
  && Bool.eqb (em_engineEnabled c) (em_engineEnabled d).

(** One run of the component function on the current state: each
    [useCallback] keeps the callback of the last render unless an entry of
    its dependency list changed, [useMemo] likewise.
    - engineMove: [game, engineDepth, engineEnabled]
    - handlePromotion: [game, selected, promotionSquare, engineEnabled]
    - onSquareClick: [game, selected, busy, isGameOver, promotionSquare, engineEnabled]
    - newGame: [engineMove, engineEnabled]
    - lastFromTo: [history] *)
Definition render (w : Session) : Session :=
  let s := st w in
  let old := hooks w in
  let over := isGameOver (deref w (game s)) in
  let em :=
    let c := engineMove_fn old in
    if Nat.eqb (em_game c) (game s)
       && Z.eqb (em_engineDepth c) (engineDepth s)
       && Bool.eqb (em_engineEnabled c) (engineEnabled s)
    then c else make_engineMove s in
  let hp :=
    let c := handlePromotion_fn old in
    if Nat.eqb (hp_game c) (game s)
       && opt_eqb (hp_selected c) (selected s)
       && opt_eqb (hp_promotionSquare c) (promotionSquare s)
       && Bool.eqb (hp_engineEnabled c) (engineEnabled s)
    then c else make_handlePromotion s em in
  let oc :=
    let c := onSquareClick_fn old in
    if Nat.eqb (oc_game c) (game s)
       && opt_eqb (oc_selected c) (selected s)
       && Bool.eqb (oc_busy c) (busy s)
       && Bool.eqb (oc_isGameOver c) over
       && opt_eqb (oc_promotionSquare c) (promotionSquare s)
       && Bool.eqb (oc_engineEnabled c) (engineEnabled s)
    then c else make_onSquareClick s over em in
  let ng :=
    let c := newGame_fn old in
    if same_engineMove (ng_engineMove c) em
       && Bool.eqb (ng_engineEnabled c) (engineEnabled s)
    then c else make_newGame s em in
  let lf :=
    let c := lastFromTo old in
    if Nat.eqb (lf_history_id c) (history_id s)
    then c else make_lastFromTo s (lastMoveRef w) in
  {| st := s; heap := heap w; lastMoveRef := lastMoveRef w;
     hooks := {| handlePromotion_fn := hp; onSquareClick_fn := oc;
                 engineMove_fn := em; newGame_fn := ng; lastFromTo := lf |};
     isGameOver_r := over;
     inflight := inflight w; timers := timers w |}.

(** The first render: the initial values of the [useState] calls, one
    Chess object, and every callback made anew. *)
Definition initial_state : State :=
  {| game := 0; selected := None; legalTargets := []; history := [];
     history_id := 0; engineDepth := 12;
     evalInfo := {| cp := None; mateIn := Some MNull |};
     busy := false; flip := false; error := None; promotionSquare := None;
     engineEnabled := true |}.

Definition mount : Session :=
  let s := initial_state in
  let over := isGameOver new_chess in
  let em := make_engineMove s in
  {| st := s; heap := [new_chess]; lastMoveRef := None;
     hooks := {| handlePromotion_fn := make_handlePromotion s em;
                 onSquareClick_fn := make_onSquareClick s over em;
                 engineMove_fn := em;
                 newGame_fn := make_newGame s em;
                 lastFromTo := make_lastFromTo s None |};
     isGameOver_r := over; inflight := []; timers := [] |}.

(** ** Events *)

(** What can happen to the mounted component: the user acts on a widget,
    a timer set by [newGame] fires, or the fetch of a suspended
    [engineMove] call ends. *)
Inductive Event :=
| ClickSquare (sq : Square)
| ChoosePromotion (piece : jsstring)
| ClickNew (playAs : Color)
| ClickAI
| ClickFlip
| ChangeDepth (d : Z)
| ClickEngineMove
| TimerFires (i : nat)
| FetchEnds (i : nat) (reply : HttpReply).

Fixpoint remove_nth {A} (i : nat) (l : list A) : list A :=
  match l, i with
  | [], _ => []
  | _ :: l', O => l'
  | x :: l', S i' => x :: remove_nth i' l'
  end.

(** [disabled={!engineEnabled || busy || isGameOver}] of the Engine Move
    button. *)
Definition engineMove_disabled (w : Session) : bool :=
  negb (engineEnabled (st w)) || busy (st w) || isGameOver_r w.

(** [{error && <div ...>{error}</div>}]: the message is displayed when
    [error] is neither null nor the empty string. *)
Definition error_shown (w : Session) : bool := truthy (error (st w)).

(** The handler an event runs, taken from the latest render. *)
Definition handle (w : Session) (ev : Event) : Session :=
  match ev with
  | ClickSquare sq => onSquareClick (onSquareClick_fn (hooks w)) sq w
  | ChoosePromotion piece => handlePromotion (handlePromotion_fn (hooks w)) piece w
  | ClickNew playAs => newGame (newGame_fn (hooks w)) playAs w
  | ClickAI => w |> setEngineEnabled negb
  | ClickFlip => w |> setFlip negb
  | ChangeDepth d => w |> setEngineDepth d
  | ClickEngineMove =>
      if engineMove_disabled w then w
      else engineMove (engineMove_fn (hooks w)) None w
  | TimerFires i =>
      match nth_error (timers w) i with
      | Some t => w |> setTimers (remove_nth i (timers w)) |> timer_callback t
      | None => w
      end
  | FetchEnds i reply =>
      match nth_error (inflight w) i with
      | Some rq => w |> setInflight (remove_nth i (inflight w))
                     |> engineMove_resume rq reply
      | None => w
      end
  end.

(** An event is handled to its end, then the component renders again. *)
Definition step (w : Session) (ev : Event) : Session := render (handle w ev).

Definition run (w : Session) (evs : list Event) : Session := fold_left step evs w.

(** A session as it stands between two events: rendering it again changes
    nothing. *)
Definition Rendered (w : Session) : Prop := render w = w.

(** ** Replaying the ledger *)

Definition request_of (m : Move) : MoveReq :=
  {| from := mv_from m; to := mv_to m;
     promotion := option_map symbol_letter (mv_promotion m) |}.

(** The moves of a ledger made one after the other on a Chess object;
    [None] when the rules engine rejects one of them. *)
Fixpoint replay (g : Chess) (l : list Move) : option Chess :=
  match l with
  | [] => Some g
  | m :: l' =>
      match move g (request_of m) with
      | Moved g' _ => replay g' l'
      | _ => None
      end
  end.

(** ** Notions used to state the properties *)

(** [sq] is a legal destination of the piece on [sel]: the rules engine
    lists a move from [sel] to it. *)
Definition legal_destination (g : Chess) (sel sq : Square) : Prop :=
  exists m, In m (moves g sel) /\ mv_to m = sq.

(** What the controller relies on when it looks a destination up in
    [game.moves] before it calls [game.move]: a move the rules engine
    makes is one it lists for the square the move starts from. *)
Definition move_is_listed : Prop :=
  forall g req g' m,
    move g req = Moved g' m -> legal_destination g (from req) (to req).

(** The rules engine makes the requested move on [g] (rather than
    answering with a falsy value or throwing). *)
Definition accepts (g : Chess) (req : MoveReq) : Prop :=
  exists g' m, move g req = Moved g' m.



(** ** The evaluation panel *)

(** What the panel shows for [evalInfo]: the text of
    [evalInfo.mate !== null ? `#${evalInfo.mate}`
     : (evalInfo.cp !== null ? (evalInfo.cp >= 0 ? "+" : "") + evalInfo.cp.toFixed(2) : "—")],
    by its parts: a number sign followed by the text of the mate value, or
    the evaluation with or without a plus sign, or a dash. *)
Inductive EvalText :=
| MateText (mate : JsValue)
| CpText (plus : bool) (cp : number)
| Dash.

Definition evalText (e : EvalInfo) : EvalText :=
  match mateIn e with
  | Some MNull =>
      match cp e with
      | Some n => CpText (Z.leb 0 (num n)) n
      | None => Dash
      end
  | mate => MateText mate
  end.

(** ** The callbacks of one render *)

(** Each callback that calls [engineMove] calls the one made in the
    render it was made in itself, which closed over the same [game] and
    [engineEnabled]. *)
Definition Coherent (w : Session) : Prop :=
  let h := hooks w in
  em_game (oc_engineMove (onSquareClick_fn h)) = oc_game (onSquareClick_fn h)
  /\ em_engineEnabled (oc_engineMove (onSquareClick_fn h))
     = oc_engineEnabled (onSquareClick_fn h)
  /\ em_game (hp_engineMove (handlePromotion_fn h)) = hp_game (handlePromotion_fn h)
  /\ em_engineEnabled (hp_engineMove (handlePromotion_fn h))
     = hp_engineEnabled (handlePromotion_fn h)
  /\ em_engineEnabled (ng_engineMove (newGame_fn h)) = ng_engineEnabled (newGame_fn h).

(** The events of the user on the board and the dialog. *)
Definition is_new (ev : Event) : bool :=
  match ev with
  | ClickNew _ => true
  | _ => false
  end.

Definition is_timer (ev : Event) : bool :=
  match ev with
  | TimerFires _ => true
  | _ => false
  end.

(** A click on a square or a choice in the promotion dialog. *)
Definition is_user_move (ev : Event) : bool :=
  match ev with
  | ClickSquare _ | ChoosePromotion _ => true
  | _ => false
  end.

(** Two sessions with the same Chess objects, requests, history and last
    move. *)
Definition same_game_data (a b : Session) : Prop :=
  heap a = heap b /\ inflight a = inflight b
  /\ history (st a) = history (st b) /\ lastMoveRef a = lastMoveRef b.

End Controller.

(* ================================================================== *)
(** * A rules engine to run the controller on: chess *)
(* ================================================================== *)

(** Modelled from the spec: the Rules Engine capability of section 6
    (legal moves from a square, applying a move, side to move, check,
    game over, a position notation), which the sources import from
    chess.js and do not contain. The instance implements the moves of
    chess; a rejected move is answered with [Null], the falsy value the
    source tests for. The theorems on the controller hold for every
    rules engine; this one serves to run it on concrete games. *)
Module RefChess.

Local Open Scope Z_scope.

(** A square by file and rank, both from 0 to 7 (a1 is (0, 0)). *)
Definition Sq := (Z * Z)%type.

Definition on_board (s : Sq) : bool :=
  (0 <=? fst s) && (fst s <? 8) && (0 <=? snd s) && (snd s <? 8).

Definition sq_eqb (s t : Sq) : bool := (fst s =? fst t) && (snd s =? snd t).

Definition index (s : Sq) : nat := Z.to_nat (snd s * 8 + fst s).

Definition Board := list (option Piece).

Definition at_ (b : Board) (s : Sq) : option Piece :=
  if on_board s then nth (index s) b None else None.

Fixpoint set_nth {A} (i : nat) (x : A) (l : list A) : list A :=
  match l, i with
  | [], _ => []
  | _ :: l', O => x :: l'
  | y :: l', S i' => y :: set_nth i' x l'
  end.

Definition put (b : Board) (s : Sq) (x : option Piece) : Board :=
  if on_board s then set_nth (index s) x b else b.

(** Square names: a file letter a-h and a rank digit 1-8. *)
Definition parse_square (s : Square) : option Sq :=
  match s with
  | [f; r] => if is_file f && is_rank r
              then Some (Z.of_N f - 97, Z.of_N r - 49) else None
  | _ => None
  end.

Definition algebraic (s : Sq) : Square :=
  [Z.to_N (fst s + 97); Z.to_N (snd s + 49)].

Definition symbol_eqb (p q : PieceSymbol) : bool :=
  match p, q with
  | Pawn, Pawn | Knight, Knight | Bishop, Bishop
  | Rook, Rook | Queen, Queen | King, King => true
  | _, _ => false
  end.

Definition piece_eqb (p q : Piece) : bool :=
  symbol_eqb (p_type p) (p_type q) && color_eqb (p_color p) (p_color q).

Definition is_piece (b : Board) (s : Sq) (c : Color) (t : PieceSymbol) : bool :=
  match at_ b s with
  | Some p => piece_eqb p {| p_type := t; p_color := c |}
  | None => false
  end.

Definition opposite (c : Color) : Color :=
  match c with
  | White => Black
  | Black => White
  end.

Record Castling := { wk : bool; wq : bool; bk : bool; bq : bool }.

(** The content of a FEN text. *)
Record Position := {
  board : Board;
  side : Color;
  castling : Castling;
  ep : option Sq;
  halfmoves : Z;
  fullmoves : Z
}.

Inductive MoveKind := Normal | DoublePush | EnPassant | CastleKing | CastleQueen.

Record RMove := {
  src : Sq;
  dst : Sq;
  promo : option PieceSymbol;
  kind : MoveKind
}.

Definition back_rank : list PieceSymbol :=
  [Rook; Knight; Bishop; Queen; King; Bishop; Knight; Rook].

Definition row (c : Color) (l : list PieceSymbol) : list (option Piece) :=
  map (fun t => Some {| p_type := t; p_color := c |}) l.

Definition start_board : Board :=
  row White back_rank ++ row White (repeat Pawn 8)
  ++ repeat None 32
  ++ row Black (repeat Pawn 8) ++ row Black back_rank.

Definition start_position : Position :=
  {| board := start_board; side := White;
     castling := {| wk := true; wq := true; bk := true; bq := true |};
     ep := None; halfmoves := 0; fullmoves := 1 |}.

Definition shift (s : Sq) (d : Z * Z) : Sq := (fst s + fst d, snd s + snd d).

Definition knight_steps : list (Z * Z) :=
  [(1, 2); (2, 1); (2, -1); (1, -2); (-1, -2); (-2, -1); (-2, 1); (-1, 2)].
Definition rook_dirs : list (Z * Z) := [(1, 0); (-1, 0); (0, 1); (0, -1)].
Definition bishop_dirs : list (Z * Z) := [(1, 1); (1, -1); (-1, 1); (-1, -1)].
Definition all_dirs : list (Z * Z) := rook_dirs ++ bishop_dirs.

(** The first piece met from [s] in direction [d]. *)
Fixpoint first_piece (fuel : nat) (b : Board) (s : Sq) (d : Z * Z) : option Piece :=
  match fuel with
  | O => None
  | S fuel' =>
      let t := shift s d in
      if on_board t
      then match at_ b t with
           | Some p => Some p
           | None => first_piece fuel' b t d
           end
      else None
  end.

Definition slider_hits (b : Board) (by_ : Color) (s : Sq)
    (dirs : list (Z * Z)) (t : PieceSymbol) : bool :=
  existsb (fun d =>
    match first_piece 7 b s d with
    | Some p => color_eqb (p_color p) by_
                && (symbol_eqb (p_type p) t || symbol_eqb (p_type p) Queen)
    | None => false
    end) dirs.

(** A pawn of colour [c] moves toward higher ranks when white. *)
Definition forward (c : Color) : Z :=
  match c with
  | White => 1
  | Black => -1
  end.

(** Is square [s] attacked by a piece of colour [by_]? *)
Definition attacked (b : Board) (by_ : Color) (s : Sq) : bool :=
  existsb (fun d => is_piece b (shift s d) by_ Knight) knight_steps
  || existsb (fun d => is_piece b (shift s d) by_ King) all_dirs
  || is_piece b (shift s (1, - forward by_)) by_ Pawn
  || is_piece b (shift s (-1, - forward by_)) by_ Pawn
  || slider_hits b by_ s rook_dirs Rook
  || slider_hits b by_ s bishop_dirs Bishop.

Definition all_squares : list Sq :=
  flat_map (fun r => map (fun f => (f, r)) [0; 1; 2; 3; 4; 5; 6; 7])
           [0; 1; 2; 3; 4; 5; 6; 7].

Definition king_square (b : Board) (c : Color) : option Sq :=
  find (fun s => is_piece b s c King) all_squares.

Definition in_check (b : Board) (c : Color) : bool :=
  match king_square b c with
  | Some s => attacked b (opposite c) s
  | None => false
  end.

(** The empty squares along a ray, then the first enemy piece's square. *)
Fixpoint ray (fuel : nat) (b : Board) (us : Color) (s : Sq) (d : Z * Z) : list Sq :=
  match fuel with
  | O => []
  | S fuel' =>
      let t := shift s d in
      if on_board t
      then match at_ b t with
           | None => t :: ray fuel' b us t d
           | Some p => if color_eqb (p_color p) us then [] else [t]
           end
      else []
  end.

Definition free_or_enemy (b : Board) (us : Color) (t : Sq) : bool :=
  on_board t &&
  match at_ b t with
  | None => true
  | Some p => negb (color_eqb (p_color p) us)
  end.

Definition is_empty (b : Board) (t : Sq) : bool :=
  on_board t && negb (is_some (at_ b t)).

Definition has_enemy (b : Board) (us : Color) (t : Sq) : bool :=
  match at_ b t with
  | Some p => negb (color_eqb (p_color p) us)
  | None => false
  end.

Definition plain (s t : Sq) : RMove :=
  {| src := s; dst := t; promo := None; kind := Normal |}.

Definition last_rank (c : Color) : Z :=
  match c with
  | White => 7
  | Black => 0
  end.

Definition pawn_rank (c : Color) : Z :=
  match c with
  | White => 1
  | Black => 6
  end.

(** A pawn reaching the last rank promotes, to one of four pieces. *)
Definition pawn_to (c : Color) (s t : Sq) (k : MoveKind) : list RMove :=
  if snd t =? last_rank c
  then map (fun p => {| src := s; dst := t; promo := Some p; kind := k |})
           [Queen; Rook; Bishop; Knight]
  else [{| src := s; dst := t; promo := None; kind := k |}].

Definition pawn_moves (p : Position) (s : Sq) : list RMove :=
  let b := board p in
  let c := side p in
  let one := shift s (0, forward c) in
  let two := shift s (0, 2 * forward c) in
  (if is_empty b one then pawn_to c s one Normal else [])
  ++ (if is_empty b one && is_empty b two && (snd s =? pawn_rank c)
      then [{| src := s; dst := two; promo := None; kind := DoublePush |}] else [])
  ++ flat_map (fun df =>
       let t := shift s (df, forward c) in
       if has_enemy b c t then pawn_to c s t Normal
       else match ep p with
            | Some e => if on_board t && sq_eqb e t
                        then [{| src := s; dst := t; promo := None; kind := EnPassant |}]
                        else []
            | None => []
            end) [1; -1].

Definition castle_moves (p : Position) (s : Sq) : list RMove :=
  let b := board p in
  let c := side p in
  let r := match c with White => 0 | Black => 7 end in
  let them := opposite c in
  if sq_eqb s (4, r) && is_piece b s c King && negb (attacked b them s)
  then
    (if (match c with White => wk (castling p) | Black => bk (castling p) end)
        && is_piece b (7, r) c Rook
        && is_empty b (5, r) && is_empty b (6, r)
        && negb (attacked b them (5, r)) && negb (attacked b them (6, r))
     then [{| src := s; dst := (6, r); promo := None; kind := CastleKing |}] else [])
    ++
    (if (match c with White => wq (castling p) | Black => bq (castling p) end)
        && is_piece b (0, r) c Rook
        && is_empty b (3, r) && is_empty b (2, r) && is_empty b (1, r)
        && negb (attacked b them (3, r)) && negb (attacked b them (2, r))
     then [{| src := s; dst := (2, r); promo := None; kind := CastleQueen |}] else [])
  else [].

(** The moves of the piece on [s], the own king's safety not yet looked
    at. *)
Definition pseudo_moves (p : Position) (s : Sq) : list RMove :=
  let b := board p in
  let c := side p in
  match at_ b s with
  | Some pc =>
      if color_eqb (p_color pc) c then
        match p_type pc with
        | Pawn => pawn_moves p s
        | Knight => map (plain s)
                      (filter (free_or_enemy b c) (map (shift s) knight_steps))
        | Bishop => map (plain s) (flat_map (ray 7 b c s) bishop_dirs)
        | Rook => map (plain s) (flat_map (ray 7 b c s) rook_dirs)
        | Queen => map (plain s) (flat_map (ray 7 b c s) all_dirs)
        | King => map (plain s)
                    (filter (free_or_enemy b c) (map (shift s) all_dirs))
                  ++ castle_moves p s
        end
      else []
  | None => []
  end.

(** The board after a move. *)
Definition move_pieces (b : Board) (c : Color) (m : RMove) : Board :=
  let piece := match promo m, at_ b (src m) with
               | Some t, _ => Some {| p_type := t; p_color := c |}
               | None, x => x
               end in
  let b := put (put b (src m) None) (dst m) piece in
  match kind m with
  | EnPassant => put b (fst (dst m), snd (src m)) None
  | CastleKing =>
      put (put b (7, snd (src m)) None) (5, snd (src m))
          (Some {| p_type := Rook; p_color := c |})
  | CastleQueen =>
      put (put b (0, snd (src m)) None) (3, snd (src m))
          (Some {| p_type := Rook; p_color := c |})
  | _ => b
  end.

Definition legal (p : Position) (m : RMove) : bool :=
  negb (in_check (move_pieces (board p) (side p) m) (side p)).

Definition legal_moves (p : Position) (s : Sq) : list RMove :=
  filter (legal p) (pseudo_moves p s).

Definition touches (m : RMove) (s : Sq) : bool :=
  sq_eqb (src m) s || sq_eqb (dst m) s.

Definition castling_after (p : Position) (m : RMove) : Castling :=
  let c := castling p in
  let king_moved col := is_piece (board p) (src m) col King in
  {| wk := wk c && negb (king_moved White) && negb (touches m (7, 0));
     wq := wq c && negb (king_moved White) && negb (touches m (0, 0));
     bk := bk c && negb (king_moved Black) && negb (touches m (7, 7));
     bq := bq c && negb (king_moved Black) && negb (touches m (0, 7)) |}.

(** The position after a legal move. *)
Definition make_move (p : Position) (m : RMove) : Position :=
  let b := board p in
  let c := side p in
  let pawn := is_piece b (src m) c Pawn in
  let capture := is_some (at_ b (dst m))
                 || match kind m with EnPassant => true | _ => false end in
  {| board := move_pieces b c m;
     side := opposite c;
     castling := castling_after p m;
     ep := match kind m with
           | DoublePush => Some (fst (src m), snd (src m) + forward c)
           | _ => None
           end;
     halfmoves := if pawn || capture then 0 else halfmoves p + 1;
     fullmoves := match c with
                  | White => fullmoves p
                  | Black => fullmoves p + 1
                  end |}.

(** What two positions must share to count as a repetition. *)
Definition opt_piece_eqb (x y : option Piece) : bool :=
  match x, y with
  | Some p, Some q => piece_eqb p q
  | None, None => true
  | _, _ => false
  end.

Fixpoint board_eqb (b c : Board) : bool :=
  match b, c with
  | [], [] => true
  | x :: b', y :: c' => opt_piece_eqb x y && board_eqb b' c'
  | _, _ => false
  end.

Definition castling_eqb (c d : Castling) : bool :=
  Bool.eqb (wk c) (wk d) && Bool.eqb (wq c) (wq d)
  && Bool.eqb (bk c) (bk d) && Bool.eqb (bq c) (bq d).

Definition same_position (p q : Position) : bool :=
  board_eqb (board p) (board q) && color_eqb (side p) (side q)
  && castling_eqb (castling p) (castling q)
  && match ep p, ep q with
     | Some s, Some t => sq_eqb s t
     | None, None => true
     | _, _ => false
     end.

(** A Chess object: the position, and the positions it went through
    since it was made (the current one first). *)
Record Game := {
  pos : Position;
  seen : list Position
}.

Definition load_fen (p : Position) : Game := {| pos := p; seen := [p] |}.

Definition pieces_on (b : Board) : list (Sq * Piece) :=
  flat_map (fun s => match at_ b s with
                     | Some p => [(s, p)]
                     | None => []
                     end) all_squares.

Definition no_legal_move (p : Position) : bool :=
  forallb (fun s => match legal_moves p s with
                    | [] => true
                    | _ => false
                    end) all_squares.

Definition square_shade (s : Sq) : bool := Z.even (fst s + snd s).

(** King against king, with at most one knight or bishop added, or with
    bishops that all stand on squares of one shade. *)
Definition insufficient_material (b : Board) : bool :=
  let ps := pieces_on b in
  let others := filter (fun sp => negb (symbol_eqb (p_type (snd sp)) King)) ps in
  let bishops := filter (fun sp => symbol_eqb (p_type (snd sp)) Bishop) others in
  match others with
  | [] => true
  | [(_, p)] => symbol_eqb (p_type p) Bishop || symbol_eqb (p_type p) Knight
  | (s, _) :: _ =>
      Nat.eqb (List.length bishops) (List.length others)
      && forallb (fun sp => Bool.eqb (square_shade (fst sp)) (square_shade s)) others
  end.

Definition threefold (g : Game) : bool :=
  Nat.leb 3 (List.length (filter (same_position (pos g)) (seen g))).

(** Checkmate, stalemate, or a draw by the fifty-move rule, by lack of
    material or by repetition. *)
Definition game_over (g : Game) : bool :=
  no_legal_move (pos g)
  || (100 <=? halfmoves (pos g))
  || insufficient_material (board (pos g))
  || threefold g.

Definition moves_from (g : Game) (sq : Square) : list RMove :=
  match parse_square sq with
  | Some s => legal_moves (pos g) s
  | None => []
  end.

(** A legal move answers a request when its squares are the requested
    ones and, if it promotes, to the requested piece. *)
Definition answers (req : MoveReq) (m : RMove) : bool :=
  JS.eqb (algebraic (src m)) (from req)
  && JS.eqb (algebraic (dst m)) (to req)
  && match promo m with
     | Some t => opt_eqb (promotion req) (Some (symbol_letter t))
     | None => true
     end.

Definition try_move (g : Game) (req : MoveReq) : MoveResult Game RMove :=
  match find (answers req) (moves_from g (from req)) with
  | Some m =>
      let p := make_move (pos g) m in
      Moved {| pos := p; seen := p :: seen g |} m
  | None => Null
  end.

#[export] Instance engine : RulesEngine := {|
  Chess := Game;
  Fen := Position;
  Move := RMove;
  new_chess := load_fen start_position;
  load := load_fen;
  fen := pos;
  turn := fun g => side (pos g);
  get := fun g sq => match parse_square sq with
                     | Some s => at_ (board (pos g)) s
                     | None => None
                     end;
  moves := moves_from;
  move := try_move;
  isGameOver := game_over;
  inCheck := fun g => in_check (board (pos g)) (side (pos g));
  mv_from := fun m => algebraic (src m);
  mv_to := fun m => algebraic (dst m);
  mv_promotion := promo
|}.

End RefChess.

(* ================================================================== *)
(** * Concrete sessions *)
(* ================================================================== *)

(** Sessions of the component over the chess engine above, named by the
    events that lead to them from the first render. *)
Module Play.

Import RefChess.

Definition click (sq : string) : Event := ClickSquare (lit sq).

(** A 200 response of the oracle whose bestmove member is [text]. *)
Definition reply (text : string) : HttpReply :=
  Response 200
    (BodyJson (JObj [(lit "success", MOther);
                     (lit "evaluation", MNum {| num := 3; den := 10 |});
                     (lit "mate", MNull);
                     (lit "bestmove", MStr (lit text))])).

(** e2 is selected in the starting position. *)
Definition e2_selected : Session := run mount [click "e2"].

(** White has played e2-e4 and the oracle has been asked for a reply. *)
Definition waiting_after_e4 : Session := run mount [click "e2"; click "e4"].

(** ... then New (White) is pressed before the oracle answers. *)
Definition new_game_while_waiting : Session :=
  run waiting_after_e4 [ClickNew White].

(** ... and then the answer to the abandoned game arrives. *)
Definition late_reply : Session :=
  run new_game_while_waiting [FetchEnds 0 (reply "bestmove e7e5 ponder g1f3")].

(** 1. a3 e5 was played to its end, then New (Black) is pressed, the timer
    fires, and the oracle proposes e2-e4 for the starting position. *)
Definition after_a3_e5 : Session :=
  run mount [click "a2"; click "a3"; FetchEnds 0 (reply "bestmove e7e5 ponder g1f3")].

Definition new_black_after_a3_e5 : Session :=
  run after_a3_e5 [ClickNew Black; TimerFires 0;
                   FetchEnds 0 (reply "bestmove e2e4 ponder e7e5")].

(** New (Black) is pressed, its timer fires (one request, busy), and New
    (Black) is pressed again. *)
Definition new_black_twice : Session :=
  run mount [ClickNew Black; TimerFires 0; ClickNew Black].

(** ... and the second timer fires as well. *)
Definition two_requests : Session := run new_black_twice [TimerFires 0].

(** 1. h4 g5 2. hxg5 a6 3. g6 a5 4. gxh7 a4, then the pawn on h7 is
    selected and g8 is clicked: the promotion dialog is open. *)
Definition promotion_pending : Session :=
  run mount [click "h2"; click "h4"; FetchEnds 0 (reply "bestmove g7g5");
             click "h4"; click "g5"; FetchEnds 0 (reply "bestmove a7a6");
             click "g5"; click "g6"; FetchEnds 0 (reply "bestmove a6a5");
             click "g6"; click "h7"; FetchEnds 0 (reply "bestmove a5a4");
             click "h7"; click "g8"].

(** ... then Engine Move is activated with the dialog open and the oracle
    plays a2-a3 for White: it is Black's turn, the dialog still open. *)
Definition promotion_pending_black_to_move : Session :=
  run promotion_pending [ClickEngineMove; FetchEnds 0 (reply "bestmove a2a3")].

(** The squares of the moves of a ledger, and the piece on a square of
    the current game. *)
Definition squares_of (l : list RMove) : list (Square * Square) :=
  map (fun m => (mv_from m, mv_to m)) l.

Definition piece_at (w : Session) (sq : string) : option Piece :=
  get (deref w (game (st w))) (lit sq).

(** 1. e4 e5 2. Bc4 Nc6 3. Qh5 Nf6, and the queen on h5 is selected:
    Qxf7 is mate. *)
Definition mate_in_one : Session :=
  run mount [click "e2"; click "e4"; FetchEnds 0 (reply "bestmove e7e5");
             click "f1"; click "c4"; FetchEnds 0 (reply "bestmove b8c6");
             click "d1"; click "h5"; FetchEnds 0 (reply "bestmove g8f6");
             click "h5"].

(** A 200 response with an evaluation and a move but no mate member. *)
Definition reply_without_mate (text : string) : HttpReply :=
  Response 200
    (BodyJson (JObj [(lit "evaluation", MNum {| num := 3; den := 10 |});
                     (lit "bestmove", MStr (lit text))])).

(** The AI is switched off after e2 was selected. *)
Definition ai_off_e2_selected : Session := run mount [click "e2"; ClickAI].

(** The number of move sequences of a given length from a position, the
    usual check of a move generator. *)
Fixpoint perft (n : nat) (p : Position) : Z :=
  match n with
  | O => 1%Z
  | S n' =>
      fold_left (fun acc m => (acc + perft n' (make_move p m))%Z)
                (flat_map (legal_moves p) all_squares) 0%Z
  end.

End Play.

(* ================================================================== *)
(** * Facts on strings and on rendering *)
(* ================================================================== *)

Lemma js_eqb_eq (s t : jsstring) : JS.eqb s t = true <-> s = t.
Proof.
  revert t; induction s as [|c s IH]; intros [|d t]; simpl; split;
    try congruence; try reflexivity.
  - intros H. apply andb_true_iff in H as [H1 H2].
    apply N.eqb_eq in H1. apply IH in H2. congruence.
  - intros H. injection H as -> ->. rewrite N.eqb_refl. simpl. now apply IH.
Qed.

Lemma js_eqb_refl (s : jsstring) : JS.eqb s s = true.
Proof. now apply js_eqb_eq. Qed.

Lemma opt_eqb_eq (s t : option jsstring) : opt_eqb s t = true <-> s = t.
Proof.
  destruct s as [s|], t as [t|]; simpl; split; try congruence; try reflexivity.
  - intros H. apply js_eqb_eq in H. congruence.
  - intros H. injection H as ->. apply js_eqb_refl.
Qed.

Lemma opt_eqb_refl (s : option jsstring) : opt_eqb s s = true.
Proof. now apply opt_eqb_eq. Qed.

Section RenderFacts.

Context {RE : RulesEngine}.

(** Keeping a memoised value when a test on it holds, and replacing it by
    a value that passes the test otherwise, leaves a value that passes. *)
Lemma keep_or_make {A} (test : A -> bool) (old fresh : A) :
  test fresh = true ->
  test (if test old then old else fresh) = true.
Proof. intros H. destruct (test old) eqn:E; assumption. Qed.

Lemma same_engineMove_refl (c : EngineMoveFn) : same_engineMove c c = true.
Proof.
  unfold same_engineMove.
  now rewrite Nat.eqb_refl, Z.eqb_refl, Bool.eqb_reflx.
Qed.

(** Rendering twice is rendering once: the second run finds every
    dependency as the first left it. *)
Lemma render_idem (w : Session) : render (render w) = render w.
Proof.
  unfold render at 1.
  set (w' := render w).
  assert (Hst : st w' = st w) by reflexivity.
  assert (Hheap : heap w' = heap w) by reflexivity.
  assert (Hd : deref w' (game (st w')) = deref w (game (st w))) by reflexivity.
  rewrite Hd.
  set (over := isGameOver (deref w (game (st w)))).
  set (em_test := fun c : EngineMoveFn =>
         Nat.eqb (em_game c) (game (st w))
         && Z.eqb (em_engineDepth c) (engineDepth (st w))
         && Bool.eqb (em_engineEnabled c) (engineEnabled (st w))).
  set (hp_test := fun c : HandlePromotionFn =>
         Nat.eqb (hp_game c) (game (st w))
         && opt_eqb (hp_selected c) (selected (st w))
         && opt_eqb (hp_promotionSquare c) (promotionSquare (st w))
         && Bool.eqb (hp_engineEnabled c) (engineEnabled (st w))).
  set (oc_test := fun c : OnSquareClickFn =>
         Nat.eqb (oc_game c) (game (st w))
         && opt_eqb (oc_selected c) (selected (st w))
         && Bool.eqb (oc_busy c) (busy (st w))
         && Bool.eqb (oc_isGameOver c) over
         && opt_eqb (oc_promotionSquare c) (promotionSquare (st w))
         && Bool.eqb (oc_engineEnabled c) (engineEnabled (st w))).
  set (lf_test := fun c : LastFromTo => Nat.eqb (lf_history_id c) (history_id (st w))).
  assert (Hem : em_test (engineMove_fn (hooks w')) = true).
  { apply (keep_or_make em_test). unfold em_test, make_engineMove; simpl.
    now rewrite Nat.eqb_refl, Z.eqb_refl, Bool.eqb_reflx. }
  assert (Hhp : hp_test (handlePromotion_fn (hooks w')) = true).
  { apply (keep_or_make hp_test). unfold hp_test, make_handlePromotion; simpl.
    now rewrite Nat.eqb_refl, !opt_eqb_refl, Bool.eqb_reflx. }
  assert (Hoc : oc_test (onSquareClick_fn (hooks w')) = true).
  { apply (keep_or_make oc_test). unfold oc_test, make_onSquareClick; simpl.
    now rewrite Nat.eqb_refl, !opt_eqb_refl, !Bool.eqb_reflx. }
  assert (Hlf : lf_test (lastFromTo (hooks w')) = true).
  { apply (keep_or_make lf_test). unfold lf_test, make_lastFromTo; simpl.
    apply Nat.eqb_refl. }
  set (ng_test := fun c : NewGameFn =>
         same_engineMove (ng_engineMove c) (engineMove_fn (hooks w'))
         && Bool.eqb (ng_engineEnabled c) (engineEnabled (st w))).
  assert (Hng : ng_test (newGame_fn (hooks w')) = true).
  { apply (keep_or_make ng_test). unfold ng_test, make_newGame; simpl.
    now rewrite same_engineMove_refl, Bool.eqb_reflx. }
  rewrite Hst.
  fold (em_test (engineMove_fn (hooks w'))). rewrite Hem.
  fold (hp_test (handlePromotion_fn (hooks w'))). rewrite Hhp.
  fold (oc_test (onSquareClick_fn (hooks w'))). rewrite Hoc.
  fold (lf_test (lastFromTo (hooks w'))). rewrite Hlf.
  fold (ng_test (newGame_fn (hooks w'))). rewrite Hng.
  reflexivity.
Qed.

End RenderFacts.

(* ================================================================== *)
(** * parseBestMove against the words of the specification *)
(* ================================================================== *)

Section TokenFacts.

(** Decide the comparisons of code units in the goal and let [lia] close
    the cases. *)
Ltac units :=
  unfold same_letter, is_file, is_rank, is_promo in *; unfold between in *;
  repeat match goal with
         | |- context [N.eqb ?a ?b] => destruct (N.eqb_spec a b)
         | |- context [N.leb ?a ?b] => destruct (N.leb_spec a b)
         | H : context [N.eqb ?a ?b] |- _ => destruct (N.eqb_spec a b)
         | H : context [N.leb ?a ?b] |- _ => destruct (N.leb_spec a b)
         end;
  simpl in *; try reflexivity; try congruence; try lia.

Lemma lowerUnit_cases (c : N) :
  (between 65 90 c = true /\ lowerUnit c = [(c + 32)%N])
  \/ (c = 8490%N /\ lowerUnit c = [107%N])
  \/ (c = 304%N /\ lowerUnit c = [105%N; 775%N])
  \/ (between 65 90 c = false /\ c <> 8490%N /\ c <> 304%N /\ lowerUnit c = [c]).
Proof.
  unfold lowerUnit.
  destruct (between 65 90 c) eqn:Eup; [now left|].
  destruct (N.eqb_spec c 8490) as [->|Hk]; [now right; left|].
  destruct (N.eqb_spec c 304) as [->|Hi]; [now right; right; left|].
  now right; right; right.
Qed.

Lemma lower_matches (t : jsstring) :
  forallb plain_small t = true ->
  forall p, JS.eqb (toLowerCase p) t = ci_eqb p t.
Proof.
  unfold toLowerCase.
  induction t as [|x t IH]; intros Ht p.
  - destruct p as [|c p]; [reflexivity|].
    simpl flat_map.
    destruct (lowerUnit_cases c) as [[_ E]|[[_ E]|[[_ E]|(_ & _ & _ & E)]]];
      rewrite E; reflexivity.
  - simpl in Ht. apply andb_true_iff in Ht as [Hx Ht].
    destruct p as [|c p]; [reflexivity|].
    simpl flat_map. simpl ci_eqb. specialize (IH Ht p). unfold plain_small in Hx.
    destruct (lowerUnit_cases c) as [[Eup E]|[[-> E]|[[-> E]|(Eup & Hk & Hi & E)]]];
      rewrite E; cbn [JS.eqb app].
    + rewrite IH. f_equal. clear IH E. units.
    + clear IH. replace (same_letter 8490 x) with false by units.
      replace (N.eqb 107 x) with false by units. reflexivity.
    + clear IH. replace (same_letter 304 x) with false by units.
      replace (N.eqb 105 x) with false by units. reflexivity.
    + rewrite IH. f_equal. clear IH E. units.
Qed.

Lemma lower_bestmove (p : jsstring) :
  JS.eqb (toLowerCase p) (lit "bestmove") = ci_eqb p (lit "bestmove").
Proof. apply lower_matches. reflexivity. Qed.

(** *** Trimming *)

Lemma trimStart_split (s : jsstring) :
  exists pre, s = pre ++ trimStart s /\ forallb isWhiteSpace pre = true.
Proof.
  induction s as [|c s [pre [E H]]]; simpl.
  - exists []. split; reflexivity.
  - destruct (isWhiteSpace c) eqn:Ec.
    + exists (c :: pre). simpl. rewrite Ec, H. split; [congruence | reflexivity].
    + exists []. split; reflexivity.
Qed.

Lemma trimStart_head (s : jsstring) :
  match trimStart s with
  | [] => True
  | c :: _ => isWhiteSpace c = false
  end.
Proof.
  induction s as [|c s IH]; simpl; [exact I|].
  destruct (isWhiteSpace c) eqn:Ec; [exact IH | exact Ec].
Qed.

Lemma trimEnd_split (s : jsstring) :
  exists tail, s = trimEnd s ++ tail /\ forallb isWhiteSpace tail = true.
Proof.
  unfold trimEnd. destruct (trimStart_split (rev s)) as [pre [E H]].
  exists (rev pre). split.
  - rewrite <- rev_app_distr, <- E. symmetry. apply rev_involutive.
  - rewrite forallb_forall in *. intros x Hx. apply H. now apply in_rev.
Qed.

Lemma trimEnd_no_trailing (s : jsstring) : no_trailing (trimEnd s).
Proof.
  unfold no_trailing, trimEnd.
  pose proof (trimStart_head (rev s)) as H.
  destruct (trimStart (rev s)) as [|c y]; [reflexivity|].
  simpl. now rewrite last_last.
Qed.

Lemma trim_no_leading (s : jsstring) : no_leading (trim s).
Proof.
  unfold trim.
  pose proof (trimStart_head s) as H.
  destruct (trimEnd_split (trimStart s)) as [tail [E _]].
  destruct (trimEnd (trimStart s)) as [|c u]; [exact I|].
  rewrite E in H. exact H.
Qed.

(** *** Words *)

Lemma words_go_spaces (tail : jsstring) :
  forallb isWhiteSpace tail = true ->
  forall cur, words_go cur tail = words_go cur [].
Proof.
  induction tail as [|c tail IH]; intros H cur; [reflexivity|].
  simpl in H. apply andb_true_iff in H as [Hc H].
  simpl. rewrite Hc, (IH H []). simpl. reflexivity.
Qed.

Lemma words_go_trailing (s tail : jsstring) :
  forallb isWhiteSpace tail = true ->
  forall cur, words_go cur (s ++ tail) = words_go cur s.
Proof.
  intros H. induction s as [|c s IH]; intros cur.
  - apply words_go_spaces, H.
  - simpl. destruct (isWhiteSpace c).
    + rewrite (IH []). reflexivity.
    + apply IH.
Qed.

Lemma words_leading (pre s : jsstring) :
  forallb isWhiteSpace pre = true -> words (pre ++ s) = words s.
Proof.
  unfold words. induction pre as [|c pre IH]; intros H; [reflexivity|].
  simpl in H. apply andb_true_iff in H as [Hc H].
  simpl. rewrite Hc. now apply IH.
Qed.

(** Trimming removes no word. *)
Lemma words_trim (s : jsstring) : words (trim s) = words s.
Proof.
  unfold trim.
  destruct (trimStart_split s) as [pre [E1 H1]].
  destruct (trimEnd_split (trimStart s)) as [tail [E2 H2]].
  rewrite E1 at 2. rewrite (@words_leading pre _ H1).
  rewrite E2 at 2. unfold words. now rewrite (@words_go_trailing _ tail H2).
Qed.

Lemma words_go_nonempty (s cur : jsstring) : cur <> [] -> words_go cur s <> [].
Proof.
  revert cur. induction s as [|c s IH]; intros cur H; simpl.
  - destruct cur; [congruence | discriminate].
  - destruct (isWhiteSpace c).
    + destruct cur; [congruence | discriminate].
    + apply IH. now destruct cur.
Qed.

Lemma words_go_all_nonempty (s cur : jsstring) :
  Forall (fun w => w <> []) (words_go cur s).
Proof.
  revert cur. induction s as [|c s IH]; intros cur; simpl.
  - destruct cur; constructor; [discriminate | constructor].
  - destruct (isWhiteSpace c).
    + destruct cur; [apply IH | constructor; [discriminate | apply IH]].
    + apply IH.
Qed.

Lemma no_trailing_cons (c : N) (s : jsstring) :
  s <> [] -> no_trailing (c :: s) -> no_trailing s.
Proof. unfold no_trailing. destruct s; [congruence | auto]. Qed.

(** On a text that does not end in white space, splitting at white space
    and listing the words agree from any point where no empty piece can
    arise: inside a word, or inside a run of white space. *)
Lemma split_go_words (s : jsstring) :
  no_trailing s ->
  (forall cur, cur <> [] -> split_go false cur s = words_go cur s)
  /\ (s <> [] -> split_go true [] s = words_go [] s).
Proof.
  induction s as [|c s IH]; intros Hs.
  - split; [|congruence]. intros cur Hcur. simpl. now destruct cur.
  - assert (Hrest : isWhiteSpace c = true -> s <> []).
    { intros Hc ->. unfold no_trailing in Hs. simpl in Hs. congruence. }
    split.
    + intros cur Hcur. simpl. destruct (isWhiteSpace c) eqn:Ec.
      * specialize (Hrest eq_refl).
        destruct (IH (no_trailing_cons Hrest Hs)) as [_ IH2].
        rewrite (IH2 Hrest). now destruct cur.
      * destruct s as [|d s'] eqn:Es.
        -- simpl. now destruct (cur ++ [c]) eqn:E; [destruct cur|].
        -- assert (Hne : d :: s' <> []) by discriminate.
           destruct (IH (no_trailing_cons Hne Hs)) as [IH1 _].
           apply IH1. now destruct cur.
    + intros _. simpl. destruct (isWhiteSpace c) eqn:Ec.
      * specialize (Hrest eq_refl).
        destruct (IH (no_trailing_cons Hrest Hs)) as [_ IH2].
        now apply IH2.
      * destruct s as [|d s'] eqn:Es; [reflexivity|].
        assert (Hne : d :: s' <> []) by discriminate.
        destruct (IH (no_trailing_cons Hne Hs)) as [IH1 _].
        apply IH1. discriminate.
Qed.

(** The pieces [parseBestMove] works on are the words of the text, or one
    empty piece when the text has no word. *)
Lemma split_trim_words (s : jsstring) :
  split_ws (trim s) = match words s with
                      | [] => [[]]
                      | ws => ws
                      end.
Proof.
  rewrite <- (words_trim s).
  pose proof (trim_no_leading s) as Hl.
  pose proof (trimEnd_no_trailing (trimStart s)) as Ht. fold (trim s) in Ht.
  destruct (trim s) as [|c u]; [reflexivity|].
  simpl in Hl. unfold split_ws, words. simpl. rewrite Hl.
  assert (Hw : words_go [c] u <> []) by (apply words_go_nonempty; discriminate).
  assert (E : split_go false [c] u = words_go [c] u).
  { destruct u as [|d u'] eqn:Eu; [reflexivity|].
    assert (Hne : d :: u' <> []) by discriminate.
    destruct (split_go_words (no_trailing_cons Hne Ht)) as [H1 _].
    apply H1. discriminate. }
  rewrite E. now destruct (words_go [c] u).
Qed.

(** *** The candidate *)

Lemma findIndex_word_after (ws : list jsstring) :
  Forall (fun w => w <> []) ws ->
  match findIndex (fun p => JS.eqb (toLowerCase p) (lit "bestmove")) ws with
  | Some i => truthy_at ws (i + 1)
  | None => None
  end = word_after_bestmove ws.
Proof.
  set (f := fun p : jsstring => JS.eqb (toLowerCase p) (lit "bestmove")).
  induction 1 as [|w ws Hw Hws IH]; [reflexivity|].
  cbn [findIndex word_after_bestmove].
  replace (f w) with (ci_eqb w (lit "bestmove")) by (symmetry; apply lower_bestmove).
  destruct (ci_eqb w (lit "bestmove")).
  - unfold truthy_at. simpl. destruct ws as [|v ws']; [reflexivity|].
    simpl. inversion Hws; subst. destruct v; [congruence | reflexivity].
  - destruct (findIndex f ws) as [i|]; [|exact IH].
    rewrite <- IH. reflexivity.
Qed.

(** [parseBestMove] tests the candidate token of the text. *)
Lemma parseBestMove_candidate (s : jsstring) :
  parseBestMove (Some s)
  = if uci_regex_test (candidate s) then Some (candidate s) else None.
Proof.
  destruct s as [|c s]; [reflexivity|].
  unfold parseBestMove. rewrite split_trim_words. unfold candidate.
  remember (c :: s) as t eqn:Et. clear Et.
  pose proof (words_go_all_nonempty t []) as Hall. fold (words t) in Hall.
  destruct (words t) as [|w ws] eqn:Ew.
  - simpl. reflexivity.
  - rewrite <- (findIndex_word_after Hall).
    destruct (findIndex _ (w :: ws)) as [i|]; [|reflexivity].
    destruct (truthy_at (w :: ws) (i + 1)); reflexivity.
Qed.

Lemma is_file_spec (c : N) : is_file c = true <-> (97 <= c <= 104)%N.
Proof. split; intros H; units. Qed.

Lemma is_rank_spec (c : N) : is_rank c = true <-> (49 <= c <= 56)%N.
Proof. split; intros H; units. Qed.

Lemma is_promo_spec (c : N) :
  is_promo c = true
  <-> ([c] = lit "q" \/ [c] = lit "r" \/ [c] = lit "b" \/ [c] = lit "n").
Proof.
  unfold is_promo. change (lit "q") with [113%N]. change (lit "r") with [114%N].
  change (lit "b") with [98%N]. change (lit "n") with [110%N].
  rewrite !orb_true_iff, !N.eqb_eq. split.
  - intros [[[H | H] | H] | H]; subst; auto.
  - intros [H | [H | [H | H]]]; injection H as H; auto.
Qed.

(** The pattern of the source accepts exactly the coordinate tokens. *)
Lemma uci_regex_test_token (u : jsstring) :
  uci_regex_test u = true <-> uci_token u.
Proof.
  unfold uci_token. split.
  - destruct u as [|f1 [|r1 [|f2 [|r2 [|p [|x u]]]]]]; simpl; try discriminate;
      intros H.
    + apply andb_true_iff in H as [H H4]. apply andb_true_iff in H as [H H3].
      apply andb_true_iff in H as [H1 H2].
      exists f1, r1, f2, r2, []. split; [reflexivity|].
      split; [now apply is_file_spec|]. split; [now apply is_rank_spec|].
      split; [now apply is_file_spec|]. split; [now apply is_rank_spec|].
      now left.
    + apply andb_true_iff in H as [H H5].
      apply andb_true_iff in H as [H H4]. apply andb_true_iff in H as [H H3].
      apply andb_true_iff in H as [H1 H2].
      exists f1, r1, f2, r2, [p]. split; [reflexivity|].
      split; [now apply is_file_spec|]. split; [now apply is_rank_spec|].
      split; [now apply is_file_spec|]. split; [now apply is_rank_spec|].
      right. now apply is_promo_spec.
  - intros (f1 & r1 & f2 & r2 & p & -> & H1 & H2 & H3 & H4 & Hp).
    apply is_file_spec in H1, H3. apply is_rank_spec in H2, H4.
    assert (E : is_file f1 && is_rank r1 && is_file f2 && is_rank r2 = true)
      by now rewrite H1, H2, H3, H4.
    destruct Hp as [-> | [-> | [-> | [-> | ->]]]]; simpl; rewrite E; reflexivity.
Qed.

End TokenFacts.

(** [parseBestMove] on texts the oracle sends. *)
Example parse_protocol_line :
  parseBestMove (Some (lit "bestmove e2e4 ponder e7e5")) = Some (lit "e2e4").
Proof. reflexivity. Qed.

Example parse_bare_promotion :
  parseBestMove (Some (lit "  e7e8q ")) = Some (lit "e7e8q").
Proof. reflexivity. Qed.

Example parse_upper_case_keyword :
  parseBestMove (Some (lit "info depth 12 BESTMOVE g1f3")) = Some (lit "g1f3").
Proof. reflexivity. Qed.

Example parse_no_move :
  parseBestMove (Some (lit "bestmove (none)")) = None.
Proof. reflexivity. Qed.

Example parse_keyword_last :
  parseBestMove (Some (lit "e2e4 bestmove")) = Some (lit "e2e4").
Proof. reflexivity. Qed.

Example parse_long_token :
  parseBestMove (Some (lit "bestmove e2e4e5")) = None.
Proof. reflexivity. Qed.

(* ================================================================== *)
(** * The session between two events *)
(* ================================================================== *)

Section SessionFacts.

Context {RE : RulesEngine}.

Lemma rendered_step (w : Session) (ev : Event) : Rendered (step w ev).
Proof. apply render_idem. Qed.

Lemma rendered_mount : Rendered mount.
Proof.
  unfold Rendered, render, mount. simpl.
  rewrite !Bool.eqb_reflx. reflexivity.
Qed.

Lemma rendered_run (evs : list Event) (w : Session) :
  Rendered w -> Rendered (run w evs).
Proof.
  revert w. induction evs as [|ev evs IH]; intros w H; [exact H|].
  simpl. apply IH, rendered_step.
Qed.

(** An event whose handler changes nothing leaves the session as it was. *)
Lemma step_noop (w : Session) (ev : Event) :
  Rendered w -> handle w ev = w -> step w ev = w.
Proof. intros Hw H. unfold step. rewrite H. exact Hw. Qed.

(** The callbacks of a rendered session see the current state: every
    state variable they read is in their dependency list. *)
Lemma rendered_onSquareClick (w : Session) :
  Rendered w ->
  let c := onSquareClick_fn (hooks w) in
  oc_busy c = busy (st w)
  /\ oc_isGameOver c = isGameOver (deref w (game (st w)))
  /\ oc_game c = game (st w)
  /\ oc_promotionSquare c = promotionSquare (st w)
  /\ oc_selected c = selected (st w)
  /\ oc_engineEnabled c = engineEnabled (st w).
Proof.
  intros H c.
  apply (f_equal (fun w => onSquareClick_fn (hooks w))) in H.
  unfold render in H; simpl in H. fold c in H.
  match type of H with (if ?t then _ else _) = _ => destruct t eqn:E end.
  - repeat (apply andb_true_iff in E as [E ?]).
    apply Nat.eqb_eq in E.
    repeat match goal with
           | X : opt_eqb _ _ = true |- _ => apply (proj1 (opt_eqb_eq _ _)) in X
           | X : Bool.eqb _ _ = true |- _ => apply Bool.eqb_prop in X
           end.
    repeat split; assumption.
  - rewrite <- H. simpl. repeat split; reflexivity.
Qed.

Lemma rendered_handlePromotion (w : Session) :
  Rendered w ->
  let c := handlePromotion_fn (hooks w) in
  hp_promotionSquare c = promotionSquare (st w)
  /\ hp_selected c = selected (st w)
  /\ hp_game c = game (st w)
  /\ hp_engineEnabled c = engineEnabled (st w).
Proof.
  intros H c.
  apply (f_equal (fun w => handlePromotion_fn (hooks w))) in H.
  unfold render in H; simpl in H. fold c in H.
  match type of H with (if ?t then _ else _) = _ => destruct t eqn:E end.
  - repeat (apply andb_true_iff in E as [E ?]).
    apply Nat.eqb_eq in E.
    repeat match goal with
           | X : opt_eqb _ _ = true |- _ => apply (proj1 (opt_eqb_eq _ _)) in X
           | X : Bool.eqb _ _ = true |- _ => apply Bool.eqb_prop in X
           end.
    repeat split; assumption.
  - rewrite <- H. simpl. repeat split; reflexivity.
Qed.

Lemma rendered_isGameOver (w : Session) :
  Rendered w -> isGameOver_r w = isGameOver (deref w (game (st w))).
Proof.
  intros H. apply (f_equal isGameOver_r) in H. symmetry. exact H.
Qed.

Lemma rendered_lastFromTo (w : Session) :
  Rendered w -> lf_history_id (lastFromTo (hooks w)) = history_id (st w).
Proof.
  intros H. apply (f_equal (fun w => lastFromTo (hooks w))) in H.
  unfold render in H; simpl in H.
  destruct (Nat.eqb_spec (lf_history_id (lastFromTo (hooks w))) (history_id (st w)))
    as [E|E]; [exact E|].
  rewrite <- H. reflexivity.
Qed.

Lemma find_none_iff {A} (f : A -> bool) (l : list A) :
  (forall x, In x l -> f x = false) -> find f l = None.
Proof.
  induction l as [|x l IH]; intros H; [reflexivity|].
  simpl. rewrite (H x (or_introl eq_refl)). apply IH.
  intros y Hy. apply H. now right.
Qed.

Lemma deref_alloc (w : Session) (g : Chess) :
  deref (alloc g w) (List.length (heap w)) = g.
Proof.
  unfold deref, alloc; simpl.
  rewrite app_nth2 by lia. now rewrite Nat.sub_diag.
Qed.

End SessionFacts.

(* ================================================================== *)
(** * Properties of the controller, for every rules engine *)
(* ================================================================== *)

Section Properties.

Context {RE : RulesEngine}.

(** C9: a click on a square while the busy flag is set, or once the game
    is over, leaves the whole session as it was: no selection is made or
    changed, no move is applied, no promotion dialog is opened and no
    oracle request is issued. *)
Theorem click_while_busy_or_over_is_ignored (w : Session) (sq : Square) :
  Rendered w ->
  busy (st w) = true \/ isGameOver (deref w (game (st w))) = true ->
  step w (ClickSquare sq) = w.
Proof.
  intros Hw H. apply step_noop; [exact Hw|]. simpl.
  destruct (rendered_onSquareClick Hw) as (Hb & Ho & _).
  unfold onSquareClick. rewrite Hb, Ho.
  destruct H as [-> | ->]; [reflexivity|].
  now rewrite orb_true_r.
Qed.

(** C6: with a square selected, a click on a square that is neither a
    legal destination of the selected piece nor a square holding a piece
    of the side to move changes nothing: the selected square, the legal
    targets, the position and the move history all stay as they were (as
    does the rest of the session). The rules engine is assumed to make
    only moves that it lists. *)
Theorem illegal_click_is_ignored (w : Session) (sel sq : Square) :
  move_is_listed ->
  Rendered w ->
  selected (st w) = Some sel ->
  ~ legal_destination (deref w (game (st w))) sel sq ->
  own_piece (deref w (game (st w))) (get (deref w (game (st w))) sq) = false ->
  step w (ClickSquare sq) = w.
Proof.
  intros Hlaw Hw Hsel Hdest Hown. apply step_noop; [exact Hw|]. simpl.
  destruct (rendered_onSquareClick Hw) as (Hb & Ho & Hg & Hp & Hs & He).
  unfold onSquareClick. rewrite Hb, Ho, Hg, Hp, Hs, Hown, Hsel.
  destruct (busy (st w) || isGameOver (deref w (game (st w)))); [reflexivity|].
  destruct (truthy (promotionSquare (st w))); [reflexivity|].
  destruct (truthy (Some sel)); simpl; [|reflexivity].
  rewrite find_none_iff.
  - destruct (move _ _) as [g m| |e] eqn:Em; try reflexivity.
    exfalso. apply Hdest. exact (Hlaw _ _ _ _ Em).
  - intros m Hm. destruct (JS.eqb (mv_to m) sq) eqn:E; [|reflexivity].
    exfalso. apply Hdest. exists m. split; [exact Hm|]. now apply js_eqb_eq.
Qed.

(** C5, as the code has it: when the rules engine does not make the
    pending move with the chosen piece, the promotion choice changes
    nothing at all. The position and the move history are unchanged, and
    so are the pending promotion and the selection: the dialog stays
    open. *)
Theorem rejected_promotion_is_ignored (w : Session) (piece : jsstring) (sel psq : Square) :
  Rendered w ->
  selected (st w) = Some sel ->
  promotionSquare (st w) = Some psq ->
  ~ accepts (deref w (game (st w)))
            {| from := sel; to := psq; promotion := Some piece |} ->
  step w (ChoosePromotion piece) = w.
Proof.
  intros Hw Hsel Hpsq Hrej. apply step_noop; [exact Hw|]. simpl.
  destruct (rendered_handlePromotion Hw) as (Hp & Hs & Hg & He).
  unfold handlePromotion. rewrite Hp, Hs, Hg, Hsel, Hpsq.
  destruct (negb (truthy (Some psq)) || negb (truthy (Some sel))); [reflexivity|].
  destruct (move _ _) as [g m| |e] eqn:Em; try reflexivity.
  exfalso. apply Hrej. now exists g, m.
Qed.

(** The busy flag and [engineMove]: while the flag is set the Engine Move
    button is disabled, so activating it changes nothing; the function
    [engineMove] itself does not look at the flag. Called while busy, by
    a promotion choice or by the timer of New (Black), it returns at once
    only if its closure has the engine disabled or its game over, and
    otherwise sends one more request. *)
Lemma engineMove_ignores_busy (w : Session) :
  Rendered w ->
  busy (st w) = true ->
  step w ClickEngineMove = w
  /\ forall (c : EngineMoveFn) (fenNow : option Fen),
       let w' := engineMove c fenNow w in
       (em_engineEnabled c = false \/ isGameOver (deref w (em_game c)) = true ->
        w' = w)
       /\ (em_engineEnabled c = true ->
           isGameOver (deref w (em_game c)) = false ->
           inflight w' =
             inflight w ++
               [{| rq_game := em_game c;
                   rq_fen := match fenNow with
                             | Some f => f
                             | None => fen (deref w (em_game c))
                             end;
                   rq_depth := capDepth (em_engineDepth c) |}]
           /\ busy (st w') = true
           /\ error (st w') = None
           /\ game (st w') = game (st w)
           /\ history (st w') = history (st w)
           /\ heap w' = heap w).
Proof.
  intros Hw Hbusy. split.
  - apply step_noop; [exact Hw|]. simpl. unfold engineMove_disabled.
    now rewrite Hbusy, orb_true_r.
  - intros c fenNow w'. subst w'. unfold engineMove. split.
    + intros [-> | H]; [reflexivity|].
      destruct (negb (em_engineEnabled c)); [reflexivity|]. now rewrite H.
    + intros -> ->. simpl. repeat split; reflexivity.
Qed.

(** With a pending promotion and no selection, neither a promotion
    choice nor a click on a square does anything. *)
Lemma dialog_without_selection_is_stuck (w : Session) :
  Rendered w ->
  truthy (promotionSquare (st w)) = true ->
  selected (st w) = None ->
  (forall piece, step w (ChoosePromotion piece) = w)
  /\ (forall sq, step w (ClickSquare sq) = w).
Proof.
  intros Hw Hp Hs. split.
  - intros piece. apply step_noop; [exact Hw|]. simpl.
    destruct (rendered_handlePromotion Hw) as (Ep & Es & _).
    unfold handlePromotion. rewrite Ep, Es, Hs. simpl.
    now rewrite orb_true_r.
  - intros sq. apply step_noop; [exact Hw|]. simpl.
    destruct (rendered_onSquareClick Hw) as (Eb & Eo & _ & Ep & _).
    unfold onSquareClick. rewrite Eb, Eo, Ep, Hp.
    now destruct (busy _ || isGameOver _).
Qed.

End Properties.

(* ================================================================== *)
(** * The controller on games of chess *)
(* ================================================================== *)

Import RefChess Play.

(** The move generator counts the 8902 sequences of three moves from the
    starting position. *)
Example perft_3 : perft 3 start_position = 8902%Z.
Proof. vm_compute. reflexivity. Qed.

(** The chess engine makes only moves that it lists. *)
Lemma chess_move_is_listed : @move_is_listed engine.
Proof.
  intros g req g' m H. simpl in H. unfold try_move in H.
  destruct (find (answers req) (moves_from g (from req))) as [r|] eqn:Ef;
    [|discriminate].
  injection H as _ <-. apply find_some in Ef as [Hin Hans].
  exists r. split; [exact Hin|].
  unfold answers in Hans.
  apply andb_true_iff in Hans as [Hans _].
  apply andb_true_iff in Hans as [_ Hto].
  now apply js_eqb_eq.
Qed.

(** Witness of C9: while the oracle is thinking about its reply to
    e2-e4, a click on d2 changes nothing. *)
Lemma click_while_busy_witness :
  busy (st waiting_after_e4) = true
  /\ step waiting_after_e4 (click "d2") = waiting_after_e4.
Proof.
  split; [vm_compute; reflexivity|].
  apply (@click_while_busy_or_over_is_ignored engine waiting_after_e4 (lit "d2")).
  - apply rendered_run, rendered_mount.
  - left. vm_compute. reflexivity.
Defined.

(** Witness of C6, the scenario of the specification: from the starting
    position e2 is selected, its targets are e3 and e4, and a click on e5
    leaves the session as it was. *)
Lemma illegal_click_witness :
  selected (st e2_selected) = Some (lit "e2")
  /\ legalTargets (st e2_selected) = [lit "e3"; lit "e4"]
  /\ step e2_selected (click "e5") = e2_selected.
Proof.
  split; [vm_compute; reflexivity|]. split; [vm_compute; reflexivity|].
  apply (@illegal_click_is_ignored engine e2_selected (lit "e2") (lit "e5")).
  - exact chess_move_is_listed.
  - apply rendered_run, rendered_mount.
  - vm_compute. reflexivity.
  - intros [m [Hin Hto]]. vm_compute in Hin.
    destruct Hin as [<- | [<- | []]]; vm_compute in Hto; discriminate.
  - vm_compute. reflexivity.
Defined.

(** Counterexample to C5 as stated: with the dialog open for h7xg8 and
    Black to move, the rules engine does not make the move with a queen,
    and after the choice the pending promotion and the selection are
    still there. *)
Lemma rejected_promotion_keeps_dialog :
  ~ accepts (deref promotion_pending_black_to_move
                   (game (st promotion_pending_black_to_move)))
            {| from := lit "h7"; to := lit "g8"; promotion := Some (lit "q") |}
  /\ promotionSquare (st (step promotion_pending_black_to_move
                               (ChoosePromotion (lit "q")))) = Some (lit "g8")
  /\ selected (st (step promotion_pending_black_to_move
                        (ChoosePromotion (lit "q")))) = Some (lit "h7").
Proof.
  split; [|split; vm_compute; reflexivity].
  intros [g [m H]]. vm_compute in H. discriminate.
Qed.

(** Witness of C5 as the code has it: in that session the choice of a
    queen changes nothing. *)
Lemma rejected_promotion_witness :
  step promotion_pending_black_to_move (ChoosePromotion (lit "q"))
  = promotion_pending_black_to_move.
Proof.
  apply (@rejected_promotion_is_ignored engine promotion_pending_black_to_move
           (lit "q") (lit "h7") (lit "g8")).
  - apply rendered_run, rendered_run, rendered_mount.
  - vm_compute. reflexivity.
  - vm_compute. reflexivity.
  - intros [g [m H]]. vm_compute in H. discriminate.
Defined.

(** C2, on the code: after New (Black), its timer, and New (Black) again,
    the busy flag is set and one request is outstanding. The second timer
    then calls [engineMove], which does not test the flag: a second
    request is sent, for the Chess object of the first new game, while the
    first asks about the object of the game before it; a direct call of
    the current [engineMove] is no no-op either. When the oracle answers
    e2e4 and d2d4, each answer is made on the object of its request and
    installed as the current game: the history holds e2-e4 and d2-d4, and
    the position has the pawn on d4 and none on e4. *)
Theorem second_request_while_busy :
  busy (st new_black_twice) = true
  /\ List.length (inflight new_black_twice) = 1
  /\ busy (st two_requests) = true
  /\ map rq_game (inflight two_requests) = [0; 1]
  /\ squares_of (history (st (run two_requests
                                 [FetchEnds 0 (reply "bestmove e2e4");
                                  FetchEnds 0 (reply "bestmove d2d4")])))
     = [(lit "e2", lit "e4"); (lit "d2", lit "d4")]
  /\ piece_at (run two_requests [FetchEnds 0 (reply "bestmove e2e4");
                                 FetchEnds 0 (reply "bestmove d2d4")]) "d4"
     = Some {| p_type := Pawn; p_color := White |}
  /\ piece_at (run two_requests [FetchEnds 0 (reply "bestmove e2e4");
                                 FetchEnds 0 (reply "bestmove d2d4")]) "e4"
     = None
  /\ engineMove (engineMove_fn (hooks new_black_twice)) None new_black_twice
     <> new_black_twice.
Proof.
  repeat (split; [vm_compute; reflexivity|]).
  intros H. apply (f_equal (fun w => List.length (inflight w))) in H.
  vm_compute in H. discriminate.
Qed.

(** In that session the Engine Move button does nothing, and the call
    made by the second timer adds a request to the one outstanding. *)
Lemma engineMove_ignores_busy_witness :
  step new_black_twice ClickEngineMove = new_black_twice
  /\ List.length
       (inflight (engineMove (engineMove_fn (hooks new_black_twice)) None
                             new_black_twice)) = 2.
Proof.
  destruct (@engineMove_ignores_busy engine new_black_twice) as [Hbutton Hcall].
  - apply rendered_run, rendered_mount.
  - vm_compute. reflexivity.
  - split; [exact Hbutton|].
    destruct (Hcall (engineMove_fn (hooks new_black_twice)) None) as [_ Hsend].
    destruct Hsend as [Hin _]; [vm_compute; reflexivity | vm_compute; reflexivity |].
    rewrite Hin, length_app. vm_compute. reflexivity.
Defined.

(** C7, on the code: with the two requests of the session above
    outstanding, the first fetch ends with a text that holds no move. The
    message of [engineMove] is displayed, no move is applied and the busy
    flag is cleared, but the oracle is not idle: the second request is
    still outstanding while the board and the Engine Move button are
    enabled again. Its answer d2d4 is then played, with the message still
    displayed. *)
Theorem soft_failure_with_a_request_in_flight :
  let failed := step two_requests (FetchEnds 0 (reply "bestmove (none)")) in
  let answered := step failed (FetchEnds 0 (reply "bestmove d2d4")) in
  error (st failed)
  = Some [50644; 51652; 51060; 32; 50976; 54952; 54620; 32; 49688; 47484; 32;
          51452; 51648; 32; 50506; 50520; 51020]%N
  /\ error_shown failed = true
  /\ List.length (history (st failed)) = 0
  /\ piece_at failed "d2" = Some {| p_type := Pawn; p_color := White |}
  /\ busy (st failed) = false
  /\ map rq_game (inflight failed) = [1]
  /\ engineMove_disabled failed = false
  /\ squares_of (history (st answered)) = [(lit "d2", lit "d4")]
  /\ piece_at answered "d4" = Some {| p_type := Pawn; p_color := White |}
  /\ error_shown answered = true.
Proof.
  cbv zeta. repeat split; vm_compute; reflexivity.
Qed.

(** C1, on the code: White plays e2-e4, New (White) is pressed while the
    request is outstanding, and the oracle then answers e7e5. Before the
    answer the new game has the starting position and an empty history;
    after it the history of the new game holds e7-e5, and the position is
    that of the abandoned game after 1. e4 e5. The answer is applied to
    the Chess object that the suspended call closed over (object 0, the
    new game being object 2), and the result is installed as the current
    game. *)
Theorem late_reply_is_applied_to_the_new_game :
  history (st new_game_while_waiting) = []
  /\ fen (deref new_game_while_waiting (game (st new_game_while_waiting)))
     = start_position
  /\ map rq_game (inflight new_game_while_waiting) = [0]
  /\ game (st new_game_while_waiting) = 2
  /\ squares_of (history (st late_reply)) = [(lit "e7", lit "e5")]
  /\ piece_at late_reply "e4" = Some {| p_type := Pawn; p_color := White |}
  /\ piece_at late_reply "e5" = Some {| p_type := Pawn; p_color := Black |}
  /\ fen (deref late_reply (game (st late_reply))) <> start_position.
Proof.
  repeat (split; [vm_compute; reflexivity|]).
  intros H. vm_compute in H. discriminate.
Qed.

(** While that game is played, ledger and position agree: after 1. a3 e5
    the replay of the history from the starting position is the current
    position. *)
Example ledger_replay_after_a3_e5 :
  option_map fen (replay new_chess (history (st after_a3_e5)))
  = Some (fen (deref after_a3_e5 (game (st after_a3_e5)))).
Proof. vm_compute. reflexivity. Qed.

(** C3, on the code: 1. a3 e5 is played to its end (no request is left
    outstanding), New (Black) is pressed, its timer fires and the oracle
    proposes e2-e4 for the starting position. The move is made on the
    Chess object of the game that was left, which [engineMove] of
    [newGame]'s closure still holds: the history is e2-e4 alone, its
    replay from the starting position is not the current position, which
    has the pawn of the old game on a3 and Black's on e5. *)
Theorem ledger_replay_differs_from_position :
  squares_of (history (st new_black_after_a3_e5)) = [(lit "e2", lit "e4")]
  /\ List.length (inflight new_black_after_a3_e5) = 0
  /\ piece_at new_black_after_a3_e5 "a3" = Some {| p_type := Pawn; p_color := White |}
  /\ piece_at new_black_after_a3_e5 "e5" = Some {| p_type := Pawn; p_color := Black |}
  /\ option_map fen (replay new_chess (history (st new_black_after_a3_e5)))
     <> Some (fen (deref new_black_after_a3_e5 (game (st new_black_after_a3_e5)))).
Proof.
  repeat (split; [vm_compute; reflexivity|]).
  intros H. vm_compute in H. discriminate.
Qed.

(** C4, on the code: [newGame] resets the position, the selection, the
    legal targets, the history, the evaluation and the error, and leaves
    the pending promotion as it is. With the dialog open for h7xg8, New
    (White) gives a session at the starting position whose dialog is
    still open, and in which neither a promotion choice nor a click on a
    square does anything. *)
Theorem newGame_keeps_the_pending_promotion :
  (forall (RE : RulesEngine) (w : Session) (playAs : Color),
     let w' := step w (ClickNew playAs) in
     promotionSquare (st w') = promotionSquare (st w)
     /\ deref w' (game (st w')) = new_chess
     /\ selected (st w') = None
     /\ legalTargets (st w') = []
     /\ history (st w') = []
     /\ evalInfo (st w') = {| cp := None; mateIn := Some MNull |}
     /\ error (st w') = None)
  /\ (let w' := step promotion_pending (ClickNew White) in
      promotionSquare (st promotion_pending) = Some (lit "g8")
      /\ promotionSquare (st w') = Some (lit "g8")
      /\ fen (deref w' (game (st w'))) = start_position
      /\ (forall piece, step w' (ChoosePromotion piece) = w')
      /\ (forall sq, step w' (ClickSquare sq) = w')).
Proof.
  split.
  - intros RE w playAs w'. subst w'. unfold step. simpl handle. unfold newGame.
    assert (Hd : nth (List.length (heap w)) (heap w ++ [new_chess]) new_chess
                 = new_chess).
    { rewrite app_nth2 by lia. now rewrite Nat.sub_diag. }
    destruct (color_eqb playAs Black && ng_engineEnabled (newGame_fn (hooks w)));
      repeat split; exact Hd.
  - cbv zeta.
    split; [vm_compute; reflexivity|]. split; [vm_compute; reflexivity|].
    split; [vm_compute; reflexivity|].
    apply dialog_without_selection_is_stuck.
    + apply rendered_step.
    + vm_compute. reflexivity.
    + vm_compute. reflexivity.
Qed.

(** C10: [newGame] leaves the busy flag and the last-move record as they
    are, and the highlight [lastFromTo], computed anew because the
    history array changed, shows the squares of that record. After 1. e4
    and New (White), with the history empty, the record and the highlight
    are still e2-e4 of the game that was left. *)
Theorem newGame_keeps_busy_and_last_move :
  (forall (RE : RulesEngine) (w : Session) (playAs : Color),
     let w' := step w (ClickNew playAs) in
     busy (st w') = busy (st w)
     /\ lastMoveRef w' = lastMoveRef w
     /\ (Rendered w ->
         lf_value (lastFromTo (hooks w'))
         = match lastMoveRef w with
           | Some m => Some (mv_from m, mv_to m)
           | None => None
           end))
  /\ history (st new_game_while_waiting) = []
  /\ busy (st new_game_while_waiting) = true
  /\ option_map (fun m => (mv_from m, mv_to m)) (lastMoveRef new_game_while_waiting)
     = Some (lit "e2", lit "e4")
  /\ lf_value (lastFromTo (hooks new_game_while_waiting))
     = Some (lit "e2", lit "e4").
Proof.
  split.
  - intros RE w playAs w'. subst w'. unfold step. simpl handle. unfold newGame.
    split; [|split].
    + now destruct (color_eqb playAs Black && _).
    + now destruct (color_eqb playAs Black && _).
    + intros Hw. pose proof (rendered_lastFromTo Hw) as Hid.
      destruct (color_eqb playAs Black && _); unfold render; simpl;
        rewrite Hid;
        (replace (Nat.eqb (history_id (st w)) (S (history_id (st w)))) with false
           by (symmetry; apply Nat.eqb_neq; lia));
        reflexivity.
  - repeat split; vm_compute; reflexivity.
Qed.

(** C8: [parseBestMove] returns null for null; for a text it takes the
    candidate token (the word after bestmove, in any case of the letters,
    otherwise the first word) and returns it exactly when it is a
    coordinate token, of four or five characters; and a move that the
    end of a fetch adds to the history was asked of the rules engine with
    the squares and the promotion letter of such a token. *)
Theorem parseBestMove_returns_only_coordinate_tokens :
  parseBestMove None = None
  /\ (forall s, uci_token (candidate s) -> parseBestMove (Some s) = Some (candidate s))
  /\ (forall s, ~ uci_token (candidate s) -> parseBestMove (Some s) = None)
  /\ (forall best u,
        parseBestMove best = Some u ->
        uci_token u /\ (List.length u = 4 \/ List.length u = 5))
  /\ (forall (RE : RulesEngine) (w : Session) (i : nat) (reply : HttpReply),
        let w' := step w (FetchEnds i reply) in
        history (st w') = history (st w)
        \/ exists rq best u g m,
             nth_error (inflight w) i = Some rq
             /\ parseBestMove best = Some u
             /\ uci_token u
             /\ move (deref w (rq_game rq))
                     {| from := slice 0 2 u; to := slice 2 4 u;
                        promotion := if Nat.eqb (List.length u) 5
                                     then charAt 4 u else None |}
                = Moved g m
             /\ history (st w') = history (st w) ++ [m]).
Proof.
  assert (Htok : forall best u, parseBestMove best = Some u -> uci_token u).
  { intros [s|] u H; [|discriminate].
    rewrite parseBestMove_candidate in H.
    destruct (uci_regex_test (candidate s)) eqn:E; [|discriminate].
    injection H as <-. now apply uci_regex_test_token. }
  split; [reflexivity|]. split; [|split; [|split]].
  - intros s H. rewrite parseBestMove_candidate.
    apply uci_regex_test_token in H. now rewrite H.
  - intros s H. rewrite parseBestMove_candidate.
    destruct (uci_regex_test (candidate s)) eqn:E; [|reflexivity].
    exfalso. apply H. now apply uci_regex_test_token.
  - intros best u H. split; [now apply (Htok best)|].
    destruct (Htok best u H) as (f1 & r1 & f2 & r2 & p & -> & _ & _ & _ & _ & Hp).
    destruct Hp as [-> | [-> | [-> | [-> | ->]]]]; simpl; auto.
  - intros RE w i reply w'. subst w'. unfold step. simpl handle.
    destruct (nth_error (inflight w) i) as [rq|] eqn:Ei; [|now left].
    unfold engineMove_resume, engineMove_try.
    destruct (fetchBestMove_result reply) as [bm|e] eqn:Ef; [|now left].
    assert (Hbm : exists best, bestUci bm = parseBestMove best).
    { unfold fetchBestMove_result in Ef. destruct reply as [e|status body];
        [discriminate|].
      destruct (negb (res_ok status)); [discriminate|].
      destruct body as [e|json]; [discriminate|].
      injection Ef as <-. simpl. eauto. }
    destruct Hbm as [best Hbest].
    destruct (bestUci bm) as [[|c u]|] eqn:Eu; try (now left).
    simpl.
    match goal with
    | |- context [move ?g ?r] => destruct (move g r) as [g' m| |e] eqn:Em
    end; try (now left).
    right. exists rq, best, (c :: u), g', m.
    split; [reflexivity|]. split; [now symmetry|].
    split; [apply (Htok best); now symmetry|].
    split; [exact Em | reflexivity].
Qed.

(* ================================================================== *)
(** * Further properties of the helpers and of the controller *)

Section ChunkFacts.

Context {T : Type}.

Lemma firstn_then_more (a b : nat) (l : list T) :
  firstn a l ++ firstn b (skipn a l) = firstn (a + b) l.
Proof.
  revert l. induction a as [|a IH]; intros l; [reflexivity|].
  destruct l as [|x l]; simpl.
  - now rewrite firstn_nil.
  - now rewrite IH.
Qed.

Lemma slices_S (size n : nat) (arr : list T) :
  slices size (S n) arr
  = slices size n arr ++ [slice_of (n * size) (n * size + size) arr].
Proof. unfold slices. now rewrite seq_S, map_app. Qed.

Lemma concat_slices (size n : nat) (arr : list T) :
  List.concat (slices size n arr) = firstn (n * size) arr.
Proof.
  induction n as [|n IH]; [reflexivity|].
  rewrite slices_S, concat_app, IH. simpl. rewrite app_nil_r.
  unfold slice_of. replace (n * size + size - n * size) with size by lia.
  rewrite firstn_then_more. f_equal. lia.
Qed.

Lemma length_slice_of (i j : nat) (arr : list T) :
  List.length (slice_of i j arr) = Nat.min (j - i) (List.length arr - i).
Proof. unfold slice_of. now rewrite length_firstn, length_skipn. Qed.

Lemma chunk_loop_slices (arr : list T) (size : nat) :
  0 < size ->
  forall fuel c,
    List.length arr <= c * size + fuel ->
    (forall k, k < c -> k * size < List.length arr) ->
    exists n,
      chunk_loop fuel arr size (c * size) (slices size c arr)
      = Some (slices size n arr)
      /\ List.length arr <= n * size
      /\ (forall k, k < n -> k * size < List.length arr).
Proof.
  intros Hsize. induction fuel as [|fuel IH]; intros c Hfuel Hc; simpl.
  - replace (c * size <? List.length arr) with false
      by (symmetry; apply Nat.ltb_ge; lia).
    exists c. repeat split; [lia | exact Hc].
  - destruct (Nat.ltb_spec (c * size) (List.length arr)) as [Hlt|Hge].
    + rewrite <- slices_S. replace (c * size + size) with (S c * size) by lia.
      apply IH; [lia|].
      intros k Hk. destruct (Nat.eq_dec k c) as [->|Hne]; [exact Hlt|].
      apply Hc. lia.
    + exists c. repeat split; [exact Hge | exact Hc].
Qed.

End ChunkFacts.

(** X1: for a positive size, [chunk] returns; its pieces put end to end
    give the array back, piece [k] is the slice from [k * size] to
    [k * size + size], no piece is empty or longer than [size], and every
    piece but the last has exactly [size] elements. *)
Theorem chunk_splits_in_order {T} (arr : list T) (size fuel : nat) :
  0 < size ->
  List.length arr <= fuel ->
  exists out,
    chunk fuel arr size = Some out
    /\ List.concat out = arr
    /\ (forall k, k < List.length out ->
          nth k out [] = slice_of (k * size) (k * size + size) arr
          /\ 0 < List.length (nth k out []) <= size)
    /\ (forall k, S k < List.length out -> List.length (nth k out []) = size).
Proof.
  intros Hsize Hfuel.
  destruct (@chunk_loop_slices T arr size Hsize fuel 0) as (n & Hrun & Hlen & Hin);
    [simpl; lia | intros k Hk; lia |].
  exists (slices size n arr). split; [exact Hrun|].
  assert (Hn : List.length (slices size n arr) = n)
    by (unfold slices; now rewrite length_map, length_seq).
  assert (Hnth : forall k, k < n ->
             nth k (slices size n arr) [] = slice_of (k * size) (k * size + size) arr).
  { intros k Hk. unfold slices.
    rewrite (nth_indep _ [] (slice_of (0 * size) (0 * size + size) arr))
      by (rewrite length_map, length_seq; exact Hk).
    rewrite (map_nth (fun k => slice_of (k * size) (k * size + size) arr)).
    now rewrite seq_nth. }
  split; [|split].
  - rewrite concat_slices. apply firstn_all2. exact Hlen.
  - rewrite Hn. intros k Hk. rewrite (Hnth k Hk). split; [reflexivity|].
    rewrite length_slice_of. specialize (Hin k Hk). lia.
  - rewrite Hn. intros k Hk. rewrite (Hnth k) by lia.
    rewrite length_slice_of. specialize (Hin (S k) Hk). lia.
Qed.

(** Witness of X1: five moves in pairs. *)
Lemma chunk_splits_witness :
  exists out,
    chunk 5 [1; 2; 3; 4; 5] 2 = Some out
    /\ List.concat out = [1; 2; 3; 4; 5]
    /\ List.length (nth 1 out []) = 2.
Proof.
  destruct (@chunk_splits_in_order nat [1; 2; 3; 4; 5] 2 5)
    as (out & Hrun & Hcat & _ & Hfull); [lia | simpl; lia |].
  exists out. split; [exact Hrun|]. split; [exact Hcat|].
  apply Hfull. injection Hrun as <-. simpl. lia.
Defined.

(** X2: with size 0 the loop of [chunk] never advances: on an array that
    is not empty it does not return, whatever the number of iterations
    allowed. *)
Theorem chunk_of_size_zero_never_returns {T} (arr : list T) (fuel : nat) :
  arr <> [] -> chunk fuel arr 0 = None.
Proof.
  intros Harr. unfold chunk.
  assert (H : forall out, chunk_loop fuel arr 0 0 out = None).
  { induction fuel as [|fuel IH]; intros out; simpl;
      destruct arr; try congruence; simpl; auto. }
  apply H.
Qed.

Lemma distinct_NoDup (l : list jsstring) : distinct l = true -> NoDup l.
Proof.
  induction l as [|x l IH]; intros H; constructor;
    simpl in H; apply andb_true_iff in H as [Hx Hl].
  - intros Hin. apply negb_true_iff in Hx.
    assert (existsb (JS.eqb x) l = true)
      by (apply existsb_exists; exists x; split; [exact Hin | apply js_eqb_refl]).
    congruence.
  - now apply IH.
Qed.

(** X3: for each of the six piece types, given by its letter in either
    case, and each colour, [glyph] finds an own member of its table, the
    chess symbol of that piece and colour; different pieces or colours have
    different symbols. *)
Theorem glyph_of_every_piece (t : PieceSymbol) (c : Color) :
  glyph (symbol_letter t) c = Own [glyph_code t c]
  /\ glyph (toUpperCase (symbol_letter t)) c = Own [glyph_code t c]
  /\ (forall t' c', glyph (symbol_letter t') c' = glyph (symbol_letter t) c ->
        t' = t /\ c' = c).
Proof.
  split; [destruct t, c; reflexivity|]. split; [destruct t, c; reflexivity|].
  intros t' c' H. destruct t, c, t', c'; (split; reflexivity) || discriminate H.
Qed.

(** X4: the board is drawn as 64 buttons with 64 different square
    names, each a file letter a-h followed by a rank digit 1-8; the colour
    class of a button depends on its square only (a1 is dark) and not on
    the orientation; flipping reverses the order of the rows and of the
    buttons in each row. *)
Theorem board_buttons_cover_the_board (flip : bool) :
  let buttons := List.concat (board_buttons flip) in
  List.length buttons = 64
  /\ NoDup (map fst buttons)
  /\ (forall name class, In (name, class) buttons ->
        (exists f r, name = [f; r] /\ is_file f = true /\ is_rank r = true)
        /\ class = shade_of_name name)
  /\ map (map fst) (board_buttons (negb flip))
     = rev (map (@rev jsstring) (map (map fst) (board_buttons flip))).
Proof.
  cbv zeta. split; [destruct flip; reflexivity|].
  split; [apply distinct_NoDup; destruct flip; vm_compute; reflexivity|].
  split; [|destruct flip; vm_compute; reflexivity].
  intros name class Hin.
  assert (Hall : forallb button_ok (List.concat (board_buttons flip)) = true)
    by (destruct flip; vm_compute; reflexivity).
  rewrite forallb_forall in Hall. specialize (Hall _ Hin).
  unfold button_ok in Hall; simpl in Hall.
  apply andb_true_iff in Hall as [Hname Hclass].
  split; [|now apply js_eqb_eq].
  destruct name as [|f [|r [|x name]]]; simpl in Hname; try discriminate.
  exists f, r. split; [reflexivity|].
  apply andb_true_iff in Hname as [Hf Hr]. now split.
Qed.

(** X22: [squareColor] gives the two classes of a checkerboard: a step
    along a row or a column changes the class, a diagonal step keeps it. *)
Theorem squareColor_alternates (f r : nat) :
  squareColor (S f) r <> squareColor f r
  /\ squareColor f (S r) <> squareColor f r
  /\ squareColor (S f) (S r) = squareColor f r.
Proof.
  unfold squareColor.
  replace (S f + S r) with (S (S (f + r))) by lia.
  replace (S f + r) with (S (f + r)) by lia.
  replace (f + S r) with (S (f + r)) by lia.
  assert (H2 : S (S (f + r)) mod 2 = (f + r) mod 2).
  { replace (S (S (f + r))) with (f + r + 1 * 2) by lia. apply Nat.Div0.mod_add. }
  assert (H1 : S (f + r) mod 2 = 1 - (f + r) mod 2).
  { pose proof (Nat.mod_upper_bound (f + r) 2).
    pose proof (Nat.mod_upper_bound (S (f + r)) 2).
    pose proof (Nat.div_mod_eq (f + r) 2). pose proof (Nat.div_mod_eq (S (f + r)) 2).
    lia. }
  rewrite H2, H1.
  pose proof (Nat.mod_upper_bound (f + r) 2).
  destruct ((f + r) mod 2) as [|[|n]]; simpl; repeat split; try discriminate; lia.
Qed.

Lemma candidate_of_words (s t : jsstring) : words s = words t -> candidate s = candidate t.
Proof. unfold candidate. now intros ->. Qed.

(** X5: white space before and after the text does not change the
    result of [parseBestMove]. *)
Theorem parseBestMove_ignores_outer_space (pre s post : jsstring) :
  forallb isWhiteSpace pre = true ->
  forallb isWhiteSpace post = true ->
  parseBestMove (Some (pre ++ s ++ post)) = parseBestMove (Some s).
Proof.
  intros Hpre Hpost. rewrite !parseBestMove_candidate.
  rewrite (@candidate_of_words (pre ++ s ++ post) s); [reflexivity|].
  rewrite (@words_leading pre _ Hpre). unfold words.
  apply words_go_trailing. exact Hpost.
Qed.

(** Witness of X5: two spaces before, a line feed and a no-break space
    after. *)
Lemma parseBestMove_ignores_outer_space_witness :
  parseBestMove (Some (lit "  " ++ lit "bestmove a7a8q" ++ [10; 160]%N))
  = Some (lit "a7a8q").
Proof.
  rewrite (@parseBestMove_ignores_outer_space (lit "  ") (lit "bestmove a7a8q") [10; 160]%N);
    reflexivity.
Defined.

Lemma words_go_no_space (u cur : jsstring) :
  forallb (fun c => negb (isWhiteSpace c)) u = true ->
  cur ++ u <> [] ->
  words_go cur u = [cur ++ u].
Proof.
  revert cur. induction u as [|c u IH]; intros cur Hu Hne; simpl.
  - rewrite app_nil_r in *. now destruct cur.
  - simpl in Hu. apply andb_true_iff in Hu as [Hc Hu].
    apply negb_true_iff in Hc. rewrite Hc.
    rewrite IH; [now rewrite <- app_assoc | exact Hu |].
    now destruct cur.
Qed.

Lemma token_has_no_space (u : jsstring) :
  uci_token u -> forallb (fun c => negb (isWhiteSpace c)) u = true /\ u <> [].
Proof.
  intros (f1 & r1 & f2 & r2 & p & -> & H1 & H2 & H3 & H4 & Hp).
  split; [|discriminate].
  assert (Hns : forall c, (49 <= c <= 122)%N -> negb (isWhiteSpace c) = true).
  { intros c Hc. apply negb_true_iff. unfold isWhiteSpace, between.
    replace (N.leb c 13) with false by (symmetry; apply N.leb_gt; lia).
    replace (N.leb 8192 c) with false by (symmetry; apply N.leb_gt; lia).
    repeat match goal with
           | |- context [N.eqb c ?k] =>
               replace (N.eqb c k) with false by (symmetry; apply N.eqb_neq; lia)
           end.
    now rewrite andb_false_r. }
  simpl. rewrite !Hns by lia. simpl.
  destruct Hp as [-> | [-> | [-> | [-> | ->]]]]; reflexivity.
Qed.

(** X6: a token returned by [parseBestMove] is returned unchanged when
    it is parsed again. *)
Theorem parseBestMove_accepts_its_own_result (best : option jsstring) (u : jsstring) :
  parseBestMove best = Some u -> parseBestMove (Some u) = Some u.
Proof.
  intros H.
  assert (Htok : uci_token u).
  { destruct best as [s|]; [|discriminate].
    rewrite parseBestMove_candidate in H.
    destruct (uci_regex_test (candidate s)) eqn:E; [|discriminate].
    injection H as <-. now apply uci_regex_test_token. }
  destruct (token_has_no_space Htok) as [Hns Hne].
  rewrite parseBestMove_candidate.
  assert (Hc : candidate u = u).
  { unfold candidate, words. rewrite (@words_go_no_space u [] Hns Hne). simpl.
    now destruct (ci_eqb u (lit "bestmove")). }
  rewrite Hc. apply uci_regex_test_token in Htok. now rewrite Htok.
Qed.

(** Witness of X6. *)
Lemma parseBestMove_accepts_its_own_result_witness :
  parseBestMove (Some (lit "e7e8q")) = Some (lit "e7e8q").
Proof.
  apply (@parseBestMove_accepts_its_own_result (Some (lit "bestmove e7e8q ponder a1a2"))).
  reflexivity.
Defined.

(** X7: the way [engineMove] cuts a token returned by [parseBestMove]:
    characters 0-1 and 2-3 are square names, the promotion is absent or
    one of q, r, b, n, and the three parts make up the whole token. *)
Theorem token_decodes_to_two_squares (best : option jsstring) (u : jsstring) :
  parseBestMove best = Some u ->
  let from := slice 0 2 u in
  let to := slice 2 4 u in
  let promo := if Nat.eqb (List.length u) 5 then charAt 4 u else None in
  is_square_name from = true
  /\ is_square_name to = true
  /\ (promo = None \/ promo = Some (lit "q") \/ promo = Some (lit "r")
      \/ promo = Some (lit "b") \/ promo = Some (lit "n"))
  /\ from ++ to ++ match promo with
                   | Some p => p
                   | None => []
                   end = u.
Proof.
  intros H.
  assert (Htok : uci_token u).
  { destruct best as [s|]; [|discriminate].
    rewrite parseBestMove_candidate in H.
    destruct (uci_regex_test (candidate s)) eqn:E; [|discriminate].
    injection H as <-. now apply uci_regex_test_token. }
  destruct Htok as (f1 & r1 & f2 & r2 & p & -> & H1 & H2 & H3 & H4 & Hp).
  apply is_file_spec in H1, H3. apply is_rank_spec in H2, H4.
  destruct Hp as [-> | [-> | [-> | [-> | ->]]]]; cbv zeta; simpl;
    rewrite H1, H2, H3, H4; simpl; repeat split; auto 6.
Qed.

(** Witness of X7. *)
Lemma token_decodes_witness :
  slice 0 2 (lit "e7e8q") ++ slice 2 4 (lit "e7e8q") ++ lit "q" = lit "e7e8q".
Proof.
  destruct (@token_decodes_to_two_squares (Some (lit "bestmove e7e8q")) (lit "e7e8q"))
    as (_ & _ & _ & H); [reflexivity|].
  exact H.
Defined.

(** Every path of every handler, one goal each. *)
Ltac paths :=
  unfold handle, onSquareClick, handlePromotion, newGame, timer_callback,
    engineMove_resume, engineMove_try, engineMove, setGame_copy;
  repeat (match goal with
          | |- context [match ?x with _ => _ end] =>
              lazymatch x with
              | context [match _ with _ => _ end] => fail
              | _ => destruct x eqn:?
              end
          end; cbv beta iota zeta).

Section RunFacts.

Context {RE : RulesEngine}.

Lemma handle_keeps_hooks (w : Session) (ev : Event) : hooks (handle w ev) = hooks w.
Proof. paths; reflexivity. Qed.

Lemma render_engineMove (w : Session) :
  em_game (engineMove_fn (hooks (render w))) = game (st w)
  /\ em_engineDepth (engineMove_fn (hooks (render w))) = engineDepth (st w)
  /\ em_engineEnabled (engineMove_fn (hooks (render w))) = engineEnabled (st w).
Proof.
  unfold render; simpl.
  match goal with |- context [if ?t then _ else _] => destruct t eqn:E end.
  - apply andb_true_iff in E as [E E3]. apply andb_true_iff in E as [E1 E2].
    apply Nat.eqb_eq in E1. apply Z.eqb_eq in E2. apply Bool.eqb_prop in E3.
    now repeat split.
  - now repeat split.
Qed.

Lemma render_onSquareClick (w : Session) :
  onSquareClick_fn (hooks (render w)) = onSquareClick_fn (hooks w)
  \/ onSquareClick_fn (hooks (render w))
     = make_onSquareClick (st w) (isGameOver (deref w (game (st w))))
                          (engineMove_fn (hooks (render w))).
Proof.
  unfold render; simpl.
  match goal with
  | |- context [if ?t then onSquareClick_fn _ else _] => destruct t
  end; [now left | now right].
Qed.

Lemma render_handlePromotion (w : Session) :
  handlePromotion_fn (hooks (render w)) = handlePromotion_fn (hooks w)
  \/ handlePromotion_fn (hooks (render w))
     = make_handlePromotion (st w) (engineMove_fn (hooks (render w))).
Proof.
  unfold render; simpl.
  match goal with
  | |- context [if ?t then handlePromotion_fn _ else _] => destruct t
  end; [now left | now right].
Qed.

Lemma render_newGame (w : Session) :
  newGame_fn (hooks (render w)) = newGame_fn (hooks w)
  \/ newGame_fn (hooks (render w))
     = make_newGame (st w) (engineMove_fn (hooks (render w))).
Proof.
  unfold render; simpl.
  match goal with
  | |- context [if ?t then newGame_fn _ else _] => destruct t
  end; [now left | now right].
Qed.

Lemma render_coherent (w : Session) : Coherent w -> Coherent (render w).
Proof.
  unfold Coherent. cbv zeta. intros (H1 & H2 & H3 & H4 & H5).
  destruct (render_engineMove w) as (Hg & _ & He).
  destruct (render_onSquareClick w) as [-> | ->];
    destruct (render_handlePromotion w) as [-> | ->];
    destruct (render_newGame w) as [-> | ->];
    simpl; repeat split; assumption.
Qed.

Lemma coherent_step (w : Session) (ev : Event) : Coherent w -> Coherent (step w ev).
Proof.
  intros H. apply render_coherent. unfold Coherent in *.
  now rewrite handle_keeps_hooks.
Qed.

Lemma coherent_mount : Coherent mount.
Proof. unfold Coherent, mount; simpl. repeat split. Qed.

Lemma coherent_run (evs : list Event) (w : Session) :
  Coherent w -> Coherent (run w evs).
Proof.
  revert w. induction evs as [|ev evs IH]; intros w H; [exact H|].
  simpl. apply IH, coherent_step, H.
Qed.

Lemma step_keeps_targets_with_selection (w : Session) (ev : Event) :
  (selected (st w) = None -> legalTargets (st w) = []) ->
  selected (st (step w ev)) = None -> legalTargets (st (step w ev)) = [].
Proof.
  unfold step. change (st (render (handle w ev))) with (st (handle w ev)).
  paths; simpl; try discriminate; auto.
Qed.

Lemma step_keeps_busy_with_request (w : Session) (ev : Event) :
  (busy (st w) = true -> inflight w <> []) ->
  busy (st (step w ev)) = true -> inflight (step w ev) <> [].
Proof.
  unfold step. change (st (render (handle w ev))) with (st (handle w ev)).
  change (inflight (render (handle w ev))) with (inflight (handle w ev)).
  paths; simpl; try discriminate; auto;
    try (intros _ _ H; now apply app_eq_nil in H as [_ H]).
Qed.

Lemma store_length (r : ref) (g : Chess) (h : list Chess) :
  List.length (store r g h) = List.length h.
Proof.
  revert r. induction h as [|x h IH]; intros r; [now destruct r|].
  destruct r; simpl; [reflexivity | now rewrite IH].
Qed.

Lemma nth_store_same (r : ref) (g d : Chess) (h : list Chess) :
  r < List.length h -> nth r (store r g h) d = g.
Proof.
  revert r. induction h as [|x h IH]; intros r Hr; simpl in Hr; [lia|].
  destruct r; simpl; [reflexivity | apply IH; lia].
Qed.

Lemma nth_fresh (h : list Chess) (g d : Chess) : nth (List.length h) (h ++ [g]) d = g.
Proof. rewrite app_nth2 by lia. now rewrite Nat.sub_diag. Qed.

Lemma in_remove_nth {A} (i : nat) (l : list A) (x : A) :
  In x (remove_nth i l) -> In x l.
Proof.
  revert i. induction l as [|y l IH]; intros i H; [destruct i; exact H|].
  destruct i; simpl in H; [now right|].
  destruct H as [-> | H]; [now left | right; eauto].
Qed.

(** The current game is an object of the store. *)
Lemma step_keeps_game_in_store (w : Session) (ev : Event) :
  game (st w) < List.length (heap w) ->
  game (st (step w ev)) < List.length (heap (step w ev)).
Proof.
  unfold step. change (st (render (handle w ev))) with (st (handle w ev)).
  change (heap (render (handle w ev))) with (heap (handle w ev)).
  paths; simpl; intros H; rewrite ?length_app, ?store_length; simpl; lia.
Qed.

Lemma step_keeps_depth_capped (w : Session) (ev : Event) :
  (forall rq, In rq (inflight w) -> (rq_depth rq <= 15)%Z) ->
  forall rq, In rq (inflight (step w ev)) -> (rq_depth rq <= 15)%Z.
Proof.
  unfold step. change (inflight (render (handle w ev))) with (inflight (handle w ev)).
  assert (Hcap : forall d, (capDepth d <= 15)%Z) by (intros d; unfold capDepth; lia).
  paths; simpl; intros H rq Hin;
    repeat match goal with
           | X : In _ (_ ++ _) |- _ => apply in_app_or in X as [X | [<- | []]]
           | X : In _ (remove_nth _ _) |- _ => apply in_remove_nth in X
           end; auto; simpl; auto.
Qed.

Lemma rendered_engineMove (w : Session) :
  Rendered w -> engineMove_fn (hooks w) = make_engineMove (st w).
Proof.
  intros H. destruct (render_engineMove w) as (Hg & Hd & He).
  rewrite H in Hg, Hd, He. unfold make_engineMove.
  destruct (engineMove_fn (hooks w)); simpl in *. now subst.
Qed.

Lemma rendered_newGame (w : Session) :
  Rendered w -> newGame_fn (hooks w) = make_newGame (st w) (make_engineMove (st w)).
Proof.
  intros H. pose proof (rendered_engineMove H) as Hem.
  apply (f_equal (fun w => newGame_fn (hooks w))) in H.
  unfold render in H; simpl in H.
  match type of H with (if ?t then _ else _) = _ => destruct t eqn:E end.
  - apply andb_true_iff in E as [E1 E2]. apply Bool.eqb_prop in E2.
    match type of E1 with
    | same_engineMove _ ?em = true =>
        assert (Hsame : em = make_engineMove (st w))
    end.
    { match goal with |- (if ?t then _ else _) = _ => destruct t end;
        [exact Hem | reflexivity]. }
    rewrite Hsame in E1. unfold same_engineMove in E1.
    apply andb_true_iff in E1 as [E1 E5]. apply andb_true_iff in E1 as [E3 E4].
    apply Nat.eqb_eq in E3. apply Z.eqb_eq in E4. apply Bool.eqb_prop in E5.
    unfold make_newGame, make_engineMove in *.
    destruct (newGame_fn (hooks w)) as [en [a b c]]; simpl in *. now subst.
  - rewrite <- H. unfold make_newGame. f_equal.
    match goal with |- (if ?t then _ else _) = _ => destruct t end;
      [exact Hem | reflexivity].
Qed.

(** X8: an event other than New either leaves the current game object,
    the store of Chess objects, the history and the last-move reference as
    they were, or the rules engine accepted a move on some stored object:
    then that move is appended to the history and is the last move, and the
    current game is a fresh object loaded from the position after it. *)
Theorem game_and_history_change_together (w : Session) (ev : Event) :
  is_new ev = false ->
  let w' := step w ev in
  (game (st w') = game (st w) /\ heap w' = heap w
   /\ history (st w') = history (st w) /\ lastMoveRef w' = lastMoveRef w)
  \/ (exists r req g m,
        move (deref w r) req = Moved g m
        /\ deref w' (game (st w')) = load (fen g)
        /\ history (st w') = history (st w) ++ [m]
        /\ lastMoveRef w' = Some m).
Proof.
  intros Hev w'. subst w'. unfold step.
  change (st (render (handle w ev))) with (st (handle w ev)).
  change (heap (render (handle w ev))) with (heap (handle w ev)).
  change (lastMoveRef (render (handle w ev))) with (lastMoveRef (handle w ev)).
  change (deref (render (handle w ev))) with (deref (handle w ev)).
  paths; simpl in Hev; try discriminate Hev;
    try (left; repeat split; reflexivity);
    right;
    match goal with
    | H : move (deref _ ?r) ?req = Moved ?g ?m |- _ =>
        exists r, req, g, m; split; [exact H|]; unfold deref; simpl;
        split; [apply nth_fresh | split; reflexivity]
    end.
Qed.

End RunFacts.

Section HandlerFacts.

Context {RE : RulesEngine}.

(** X9: when the Engine Move button is not disabled, activating it sends
    one request, for the current game object, its current position and the
    current depth capped at 15, sets [busy] and clears the error; the
    position and the history stay as they are until the answer. *)
Theorem engine_button_asks_about_the_current_position (w : Session) :
  Rendered w ->
  engineMove_disabled w = false ->
  let w' := step w ClickEngineMove in
  inflight w' =
    inflight w ++ [{| rq_game := game (st w);
                      rq_fen := fen (deref w (game (st w)));
                      rq_depth := Z.min (engineDepth (st w)) 15 |}]
  /\ busy (st w') = true
  /\ error (st w') = None
  /\ game (st w') = game (st w)
  /\ history (st w') = history (st w).
Proof.
  intros Hw Hdis w'. subst w'. unfold step. simpl handle. rewrite Hdis.
  rewrite (rendered_engineMove Hw).
  unfold engineMove_disabled in Hdis.
  apply orb_false_iff in Hdis as [Hdis Hover].
  apply orb_false_iff in Hdis as [Hen Hbusy].
  rewrite (rendered_isGameOver Hw) in Hover.
  unfold engineMove, make_engineMove; simpl. rewrite Hen, Hover. simpl.
  repeat split.
Qed.

(** X10: while the AI is switched off no event sends a request to the
    oracle or schedules a timer; only a timer scheduled earlier is left
    out of this statement. *)
Theorem engine_off_sends_no_request (w : Session) (ev : Event) :
  Rendered w ->
  engineEnabled (st w) = false ->
  is_timer ev = false ->
  (forall rq, In rq (inflight (step w ev)) -> In rq (inflight w))
  /\ timers (step w ev) = timers w.
Proof.
  intros Hw Hoff Hev. unfold step.
  change (inflight (render (handle w ev))) with (inflight (handle w ev)).
  change (timers (render (handle w ev))) with (timers (handle w ev)).
  destruct ev; simpl in Hev; try discriminate Hev; simpl handle.
  - destruct (rendered_onSquareClick Hw) as (_ & _ & _ & _ & _ & He).
    unfold onSquareClick. rewrite He, Hoff. paths; simpl; auto.
  - destruct (rendered_handlePromotion Hw) as (_ & _ & _ & He).
    unfold handlePromotion. rewrite He, Hoff. paths; simpl; auto.
  - rewrite (rendered_newGame Hw). unfold newGame, make_newGame; simpl.
    rewrite Hoff, andb_false_r. simpl. auto.
  - simpl. auto.
  - simpl. auto.
  - simpl. auto.
  - unfold engineMove_disabled. rewrite Hoff. simpl. auto.
  - paths; simpl; split; auto; intros rq Hin; eapply in_remove_nth; eauto.
Qed.

(** X11: while the promotion dialog is open a click on any square of
    the board changes nothing. *)
Theorem pending_promotion_blocks_the_board (w : Session) (sq : Square) :
  Rendered w ->
  truthy (promotionSquare (st w)) = true ->
  step w (ClickSquare sq) = w.
Proof.
  intros Hw Hp. apply step_noop; [exact Hw|]. simpl.
  destruct (rendered_onSquareClick Hw) as (Eb & Eo & _ & Ep & _).
  unfold onSquareClick. rewrite Eb, Eo, Ep, Hp.
  now destruct (busy _ || isGameOver _).
Qed.

(** X12: [handlePromotion] does nothing unless both a promotion square
    and a selected square are set. *)
Theorem promotion_choice_needs_dialog_and_selection (w : Session) (piece : jsstring) :
  Rendered w ->
  truthy (promotionSquare (st w)) = false \/ truthy (selected (st w)) = false ->
  step w (ChoosePromotion piece) = w.
Proof.
  intros Hw H. apply step_noop; [exact Hw|]. simpl.
  destruct (rendered_handlePromotion Hw) as (Ep & Es & _).
  unfold handlePromotion. rewrite Ep, Es.
  destruct H as [-> | ->]; simpl; [reflexivity|].
  now rewrite orb_true_r.
Qed.

(** X13: when the oracle answers with a well-formed token that the
    rules engine does not accept on the game object of the request, the
    game, the store, the history and the last move are unchanged; the
    evaluation of the answer is still recorded, the request is finished
    and [busy] is cleared; an error is shown only if the rules engine
    threw, and then it is its message. *)
Theorem rejected_suggestion_is_dropped
    (w : Session) (i : nat) (rq : Request) (reply : HttpReply)
    (bm : BestMove) (c : N) (u : jsstring) :
  nth_error (inflight w) i = Some rq ->
  fetchBestMove_result reply = Returns bm ->
  bestUci bm = Some (c :: u) ->
  let req := {| from := slice 0 2 (c :: u); to := slice 2 4 (c :: u);
                promotion := if Nat.eqb (List.length (c :: u)) 5
                             then charAt 4 (c :: u) else None |} in
  let w' := step w (FetchEnds i reply) in
  (forall g m, move (deref w (rq_game rq)) req <> Moved g m) ->
  game (st w') = game (st w)
  /\ heap w' = heap w
  /\ history (st w') = history (st w)
  /\ lastMoveRef w' = lastMoveRef w
  /\ evalInfo (st w') = {| cp := eval bm; mateIn := mate bm |}
  /\ busy (st w') = false
  /\ inflight w' = remove_nth i (inflight w)
  /\ error (st w') = match move (deref w (rq_game rq)) req with
                     | Throw e => Some (catch_message e)
                     | _ => error (st w)
                     end.
Proof.
  intros Hi Hf Hu req w' Hrej. subst w'. unfold step. simpl handle. rewrite Hi.
  unfold engineMove_resume, engineMove_try. rewrite Hf. cbv beta iota zeta.
  rewrite Hu.
  change (deref (setEvalInfo {| cp := eval bm; mateIn := mate bm |}
                   (setInflight (remove_nth i (inflight w)) w)) (rq_game rq))
    with (deref w (rq_game rq)).
  fold req.
  destruct (move (deref w (rq_game rq)) req) as [g m| |e] eqn:Em.
  - exfalso. now apply (Hrej g m).
  - simpl. repeat split.
  - simpl. repeat split.
Qed.

Lemma evalInfo_after_fetch (rq : Request) (reply : HttpReply) (bm : BestMove) (w : Session) :
  fetchBestMove_result reply = Returns bm ->
  evalInfo (st (engineMove_resume rq reply w)) = {| cp := eval bm; mateIn := mate bm |}.
Proof.
  intros Hf. unfold engineMove_resume, engineMove_try. rewrite Hf.
  cbv beta iota zeta.
  destruct (bestUci bm) as [[|c u]|]; try reflexivity.
  destruct (move _ _); reflexivity.
Qed.

(** X14: after a 2xx answer with a JSON object, the evaluation panel
    shows the mate member of the answer unless that member is exactly
    null; only then does it show the evaluation (when it is a number) or
    the dash. An answer without a mate member makes the panel show the
    mate text of an undefined value. *)
Theorem mate_member_decides_the_panel
    (w : Session) (i : nat) (rq : Request) (status : N) (json : Json) :
  nth_error (inflight w) i = Some rq ->
  res_ok status = true ->
  let w' := step w (FetchEnds i (Response status (BodyJson json))) in
  evalText (evalInfo (st w'))
  = match prop json (lit "mate") with
    | Some MNull =>
        match prop json (lit "evaluation") with
        | Some (MNum n) => CpText (Z.leb 0 (num n)) n
        | _ => Dash
        end
    | mate => MateText mate
    end.
Proof.
  intros Hi Hok w'. subst w'. unfold step. simpl handle. rewrite Hi.
  change (st (render ?x)) with (st x).
  erewrite evalInfo_after_fetch
    by (unfold fetchBestMove_result; rewrite Hok; reflexivity).
  unfold evalText; simpl.
  destruct (prop json (lit "mate")) as [[]|];
    destruct (prop json (lit "evaluation")) as [[]|]; reflexivity.
Qed.

(** X15: switching the AI off or on while a request is outstanding does
    not change what its answer does to the game, the store, the history,
    the last move and [busy]. *)
Theorem ai_toggle_does_not_stop_a_reply (w : Session) (i : nat) (reply : HttpReply) :
  let a := step (step w ClickAI) (FetchEnds i reply) in
  let b := step w (FetchEnds i reply) in
  history (st a) = history (st b)
  /\ heap a = heap b
  /\ game (st a) = game (st b)
  /\ lastMoveRef a = lastMoveRef b
  /\ busy (st a) = busy (st b)
  /\ engineEnabled (st a) = negb (engineEnabled (st b)).
Proof.
  cbv zeta. unfold step. simpl handle.
  change (inflight (render (setEngineEnabled negb w))) with (inflight w).
  destruct (nth_error (inflight w) i) as [rq|]; [|repeat split].
  unfold engineMove_resume, engineMove_try, deref. simpl.
  destruct (fetchBestMove_result reply) as [bm|e]; [|repeat split].
  destruct (bestUci bm) as [[|c u]|]; try (repeat split; fail).
  simpl.
  match goal with
  | |- context [move ?g ?r] => destruct (move g r)
  end; repeat split.
Qed.

End HandlerFacts.

Section MoveFacts.

Context {RE : RulesEngine}.

Lemma engineMove_cases (em : EngineMoveFn) (f : Fen) (w : Session) :
  engineMove em (Some f) w
  = if em_engineEnabled em && negb (isGameOver (deref w (em_game em)))
    then setInflight (inflight w ++ [{| rq_game := em_game em; rq_fen := f;
                                        rq_depth := capDepth (em_engineDepth em) |}])
           (setError None (setBusy true w))
    else w.
Proof.
  unfold engineMove.
  destruct (em_engineEnabled em); simpl; [|reflexivity].
  destruct (isGameOver (deref w (em_game em))); reflexivity.
Qed.

Lemma nth_after_move (h : list Chess) (r : ref) (g x d : Chess) :
  r < List.length h -> nth r (store r g h ++ [x]) d = g.
Proof.
  intros Hr. rewrite app_nth1 by (rewrite store_length; exact Hr).
  now apply nth_store_same.
Qed.

(** X16: a click on a square or a promotion choice either leaves the
    history, the game, the requests and [busy] as they were, or makes one
    move of the current game: the move is appended to the history, the
    current game becomes a fresh object loaded from the new position, the
    selection and the targets are cleared, and exactly when the AI is on
    and the move did not end the game one request is sent, for the old
    game object and the new position, with [busy] set and the error
    cleared. *)
Theorem a_move_is_followed_by_one_request (w : Session) (ev : Event) :
  Rendered w ->
  Coherent w ->
  game (st w) < List.length (heap w) ->
  is_user_move ev = true ->
  let w' := step w ev in
  (history (st w') = history (st w) /\ game (st w') = game (st w)
   /\ inflight w' = inflight w /\ busy (st w') = busy (st w))
  \/ (exists req g m,
        move (deref w (game (st w))) req = Moved g m
        /\ history (st w') = history (st w) ++ [m]
        /\ deref w' (game (st w')) = load (fen g)
        /\ selected (st w') = None
        /\ legalTargets (st w') = []
        /\ if engineEnabled (st w) && negb (isGameOver g)
           then (exists d, inflight w' =
                   inflight w ++ [{| rq_game := game (st w); rq_fen := fen g;
                                     rq_depth := capDepth d |}])
                /\ busy (st w') = true /\ error (st w') = None
           else inflight w' = inflight w /\ busy (st w') = busy (st w)
                /\ error (st w') = error (st w)).
Proof.
  intros Hw Hc Hgame Hev w'. subst w'. unfold step.
  change (st (render ?x)) with (st x).
  change (inflight (render ?x)) with (inflight x).
  change (deref (render ?x)) with (deref x).
  destruct Hc as (C1 & C2 & C3 & C4 & _).
  destruct ev; simpl in Hev; try discriminate Hev; simpl handle.
  - destruct (rendered_onSquareClick Hw) as (Eb & Eo & Eg & Ep & Es & Ee).
    rewrite Eg in C1. rewrite Ee in C2.
    unfold onSquareClick. rewrite Eb, Eo, Eg, Ep, Es, Ee.
    destruct (busy (st w) || isGameOver (deref w (game (st w))));
      [left; repeat split|].
    destruct (truthy (promotionSquare (st w))); [left; repeat split|].
    destruct (own_piece _ _); [left; repeat split|].
    destruct (negb (truthy (selected (st w)))); [left; repeat split|].
    destruct (selected (st w)) as [sel|]; [|left; repeat split].
    match goal with
    | |- context [if ?t then setPromotionSquare _ _ else _] => destruct t
    end; [left; repeat split|].
    destruct (move _ _) as [g m| |e] eqn:Em; try (left; repeat split; fail).
    right. exists {| from := sel; to := sq; promotion := Some (lit "q") |}, g, m.
    split; [exact Em|].
    match goal with
    | |- context [engineMove _ _ ?x] => set (w2 := x)
    end.
    assert (Hd : deref w2 (game (st w)) = g)
      by (unfold deref; apply nth_after_move; exact Hgame).
    assert (Hnew : deref w2 (game (st w2)) = load (fen g))
      by (unfold deref; apply nth_fresh).
    assert (Hh : history (st w2) = history (st w) ++ [m]) by reflexivity.
    assert (Hs : selected (st w2) = None) by reflexivity.
    assert (Hl : legalTargets (st w2) = []) by reflexivity.
    assert (Hi : inflight w2 = inflight w) by reflexivity.
    assert (Hb : busy (st w2) = busy (st w)) by reflexivity.
    assert (He : error (st w2) = error (st w)) by reflexivity.
    clearbody w2.
    rewrite engineMove_cases, C1, C2, Hd.
    destruct (engineEnabled (st w)); simpl;
      [destruct (isGameOver g); simpl|];
      unfold deref in *; simpl; rewrite ?Hi; repeat split; eauto.
  - destruct (rendered_handlePromotion Hw) as (Ep & Es & Eg & Ee).
    rewrite Eg in C3. rewrite Ee in C4.
    unfold handlePromotion. rewrite Ep, Es, Eg, Ee.
    destruct (negb (truthy (promotionSquare (st w))) || negb (truthy (selected (st w))));
      [left; repeat split|].
    destruct (selected (st w)) as [sel|]; [|left; repeat split].
    destruct (promotionSquare (st w)) as [psq|]; [|left; repeat split].
    destruct (move _ _) as [g m| |e] eqn:Em; try (left; repeat split; fail).
    right. exists {| from := sel; to := psq; promotion := Some piece |}, g, m.
    split; [exact Em|].
    match goal with
    | |- context [engineMove _ _ ?x] => set (w2 := x)
    end.
    assert (Hd : deref w2 (game (st w)) = g)
      by (unfold deref; apply nth_after_move; exact Hgame).
    assert (Hnew : deref w2 (game (st w2)) = load (fen g))
      by (unfold deref; apply nth_fresh).
    assert (Hh : history (st w2) = history (st w) ++ [m]) by reflexivity.
    assert (Hs : selected (st w2) = None) by reflexivity.
    assert (Hl : legalTargets (st w2) = []) by reflexivity.
    assert (Hi : inflight w2 = inflight w) by reflexivity.
    assert (Hb : busy (st w2) = busy (st w)) by reflexivity.
    assert (He : error (st w2) = error (st w)) by reflexivity.
    clearbody w2.
    rewrite engineMove_cases, C3, C4, Hd.
    destruct (engineEnabled (st w)); simpl;
      [destruct (isGameOver g); simpl|];
      unfold deref in *; simpl; rewrite ?Hi; repeat split; eauto.
Qed.

End MoveFacts.

Section DepthFacts.

Context {RE : RulesEngine}.

Lemma onSquareClick_same_game_data (c : OnSquareClickFn) (sq : Square) (a b : Session) :
  same_game_data a b ->
  same_game_data (onSquareClick c sq a) (onSquareClick c sq b).
Proof.
  intros (Hh & Hi & Hist & Hl). unfold same_game_data.
  unfold onSquareClick, engineMove, setGame_copy, deref. simpl.
  rewrite Hh.
  repeat (match goal with
          | |- context [match ?x with _ => _ end] =>
              lazymatch x with
              | context [match _ with _ => _ end] => fail
              | _ => destruct x eqn:?
              end
          end; cbv beta iota zeta); simpl; rewrite ?Hh, ?Hi, ?Hist, ?Hl; auto.
Qed.

Lemma handlePromotion_same_game_data (c : HandlePromotionFn) (p : jsstring) (a b : Session) :
  same_game_data a b ->
  same_game_data (handlePromotion c p a) (handlePromotion c p b).
Proof.
  intros (Hh & Hi & Hist & Hl). unfold same_game_data.
  unfold handlePromotion, engineMove, setGame_copy, deref. simpl.
  rewrite Hh.
  repeat (match goal with
          | |- context [match ?x with _ => _ end] =>
              lazymatch x with
              | context [match _ with _ => _ end] => fail
              | _ => destruct x eqn:?
              end
          end; cbv beta iota zeta); simpl; rewrite ?Hh, ?Hi, ?Hist, ?Hl; auto.
Qed.

Lemma changeDepth_keeps_callbacks (w : Session) (d : Z) :
  Rendered w ->
  onSquareClick_fn (hooks (step w (ChangeDepth d))) = onSquareClick_fn (hooks w)
  /\ handlePromotion_fn (hooks (step w (ChangeDepth d))) = handlePromotion_fn (hooks w)
  /\ em_engineDepth (engineMove_fn (hooks (step w (ChangeDepth d)))) = d.
Proof.
  intros Hw.
  destruct (rendered_onSquareClick Hw) as (Eb & Eo & Eg & Ep & Es & Ee).
  destruct (rendered_handlePromotion Hw) as (Fp & Fs & Fg & Fe).
  split; [|split].
  - unfold step, render; simpl. unfold deref; simpl. fold (deref w (game (st w))).
    rewrite Eb, Eo, Eg, Ep, Es, Ee.
    now rewrite Nat.eqb_refl, !opt_eqb_refl, !Bool.eqb_reflx.
  - unfold step, render; simpl.
    rewrite Fp, Fs, Fg, Fe.
    now rewrite Nat.eqb_refl, !opt_eqb_refl, !Bool.eqb_reflx.
  - unfold step. now destruct (render_engineMove (handle w (ChangeDepth d))) as (_ & -> & _).
Qed.

(** X17: a change of the depth control is not seen by the move that
    follows it: the request sent after the next click or promotion choice,
    the history and the store are the same as without the change, although
    the displayed depth is the new one. The click handlers keep the
    [engineMove] of the render in which they were made. *)
Theorem depth_change_does_not_reach_the_next_move (w : Session) (d : Z) (ev : Event) :
  Rendered w ->
  is_user_move ev = true ->
  let a := step (step w (ChangeDepth d)) ev in
  let b := step w ev in
  inflight a = inflight b
  /\ history (st a) = history (st b)
  /\ heap a = heap b
  /\ engineDepth (st a) = d.
Proof.
  intros Hw Hev a b. subst a b.
  destruct (changeDepth_keeps_callbacks d Hw) as (Hoc & Hhp & _).
  assert (Hsame : same_game_data (step w (ChangeDepth d)) w)
    by (repeat split).
  assert (Hd : engineDepth (st (step w (ChangeDepth d))) = d) by reflexivity.
  set (w1 := step w (ChangeDepth d)) in *. clearbody w1.
  unfold step.
  change (st (render ?x)) with (st x).
  change (inflight (render ?x)) with (inflight x).
  change (heap (render ?x)) with (heap x).
  destruct ev; simpl in Hev; try discriminate Hev; simpl handle.
  - rewrite Hoc.
    destruct (onSquareClick_same_game_data (onSquareClick_fn (hooks w)) sq Hsame)
      as (Hh & Hi & Hist & _).
    repeat split; try assumption.
    rewrite <- Hd. paths; reflexivity.
  - rewrite Hhp.
    destruct (handlePromotion_same_game_data (handlePromotion_fn (hooks w)) piece Hsame)
      as (Hh & Hi & Hist & _).
    repeat split; try assumption.
    rewrite <- Hd. paths; reflexivity.
Qed.

(** X18: Flip changes the orientation only: the Chess objects, the
    requests, the history, the last move, the selection and the callbacks
    are untouched, and a second Flip restores the session. *)
Theorem flip_twice_restores (w : Session) :
  Rendered w ->
  step (step w ClickFlip) ClickFlip = w
  /\ flip (st (step w ClickFlip)) = negb (flip (st w))
  /\ same_game_data (step w ClickFlip) w
  /\ selected (st (step w ClickFlip)) = selected (st w)
  /\ hooks (step w ClickFlip) = hooks w.
Proof.
  intros Hw.
  assert (Hcomm : forall x, render (setFlip negb x) = setFlip negb (render x))
    by reflexivity.
  unfold step. simpl handle. rewrite !Hcomm, Hw.
  repeat split.
  destruct w as [[] ? ? ? ? ? ?]; unfold setFlip, with_st; simpl.
  now rewrite negb_involutive.
Qed.

End DepthFacts.

Section Reachable.

Context {RE : RulesEngine}.

Lemma run_invariant (P : Session -> Prop) :
  (forall w ev, P w -> P (step w ev)) ->
  forall evs w, P w -> P (run w evs).
Proof.
  intros Hstep evs. induction evs as [|ev evs IH]; intros w Hw.
  - exact Hw.
  - apply IH, Hstep, Hw.
Qed.

Lemma game_in_store_run (evs : list Event) :
  game (st (run mount evs)) < List.length (heap (run mount evs)).
Proof.
  apply (run_invariant (fun w => game (st w) < List.length (heap w))).
  - apply step_keeps_game_in_store.
  - simpl. lia.
Qed.

(** X19: after any sequence of events from the first render, the list of
    highlighted target squares is empty whenever no square is selected. *)
Theorem targets_only_with_a_selection (evs : list Event) :
  selected (st (run mount evs)) = None ->
  legalTargets (st (run mount evs)) = [].
Proof.
  apply (run_invariant
           (fun w => selected (st w) = None -> legalTargets (st w) = [])).
  - apply step_keeps_targets_with_selection.
  - reflexivity.
Qed.

(** X20: after any sequence of events from the first render, [busy] is set
    only while a request to the oracle is outstanding: the reply of the last
    outstanding request always clears it. *)
Theorem busy_only_with_a_request (evs : list Event) :
  busy (st (run mount evs)) = true -> inflight (run mount evs) <> [].
Proof.
  apply (run_invariant (fun w => busy (st w) = true -> inflight w <> [])).
  - apply step_keeps_busy_with_request.
  - discriminate.
Qed.

(** X21: after any sequence of events from the first render, whatever
    values the depth control reported, no outstanding request asks the
    oracle for a depth above 15. *)
Theorem requests_are_capped_at_15 (evs : list Event) (rq : Request) :
  In rq (inflight (run mount evs)) -> (rq_depth rq <= 15)%Z.
Proof.
  revert rq.
  apply (run_invariant
           (fun w => forall rq, In rq (inflight w) -> (rq_depth rq <= 15)%Z)).
  - apply step_keeps_depth_capped.
  - intros rq [].
Qed.

End Reachable.

Section FailureFacts.

Context {RE : RulesEngine}.


End FailureFacts.

(** ** The properties above on the reference rules engine *)

(** Witness of X2. *)
Lemma chunk_of_size_zero_witness :
  chunk 10 [1; 2; 3] 0 = None.
Proof.
  apply (@chunk_of_size_zero_never_returns nat [1; 2; 3] 10). discriminate.
Defined.

(** Witness of X19: with e2 selected the targets are e3 and e4; after
    e2-e4 nothing is selected and no target is left. *)
Lemma targets_only_with_a_selection_witness :
  legalTargets (st e2_selected) = [lit "e3"; lit "e4"]
  /\ legalTargets (st (run mount [click "e2"; click "e4"])) = [].
Proof.
  split; [vm_compute; reflexivity|].
  apply (@targets_only_with_a_selection engine [click "e2"; click "e4"]).
  vm_compute. reflexivity.
Defined.

(** Witness of X20: while the oracle is thinking about its reply to
    e2-e4. *)
Lemma busy_only_with_a_request_witness :
  inflight waiting_after_e4 <> [].
Proof.
  apply (@busy_only_with_a_request engine [click "e2"; click "e4"]).
  vm_compute. reflexivity.
Defined.

(** Witness of X21: the depth control reports 99 and Engine Move is
    activated. *)
Lemma requests_are_capped_witness :
  map rq_depth (inflight (run mount [ChangeDepth 99; ClickEngineMove])) = [15%Z]
  /\ (rq_depth {| rq_game := 0%nat; rq_fen := fen new_chess; rq_depth := 15 |} <= 15)%Z.
Proof.
  split; [vm_compute; reflexivity|].
  apply (@requests_are_capped_at_15 engine [ChangeDepth 99; ClickEngineMove]).
  left. reflexivity.
Defined.

(** Witness of X8: the oracle answers e7e5 to e2-e4. *)
Lemma game_and_history_witness :
  let w := waiting_after_e4 in
  let w' := step w (FetchEnds 0 (reply "bestmove e7e5")) in
  squares_of (history (st w')) = [(lit "e2", lit "e4"); (lit "e7", lit "e5")]
  /\ (game (st w') = game (st w) /\ heap w' = heap w
      /\ history (st w') = history (st w) /\ lastMoveRef w' = lastMoveRef w
      \/ exists r req g m,
           move (deref w r) req = Moved g m
           /\ deref w' (game (st w')) = load (fen g)
           /\ history (st w') = history (st w) ++ [m]
           /\ lastMoveRef w' = Some m).
Proof.
  split; [vm_compute; reflexivity|].
  apply (@game_and_history_change_together engine waiting_after_e4
           (FetchEnds 0 (reply "bestmove e7e5"))).
  reflexivity.
Defined.

(** Witness of X9: Engine Move in the starting position, at the initial
    depth 12. *)
Lemma engine_button_witness :
  let w' := step mount ClickEngineMove in
  List.length (inflight w') = 1
  /\ map rq_depth (inflight w') = [12%Z]
  /\ busy (st w') = true.
Proof.
  destruct (@engine_button_asks_about_the_current_position engine mount)
    as (Hi & Hb & _).
  - apply rendered_mount.
  - vm_compute. reflexivity.
  - cbv zeta. rewrite Hi. split; [reflexivity | split; [reflexivity | exact Hb]].
Defined.

(** Witness of X10: e2 is selected, the AI is switched off, e4 is
    clicked: the move is made and nothing is asked. *)
Lemma engine_off_witness :
  let w' := step ai_off_e2_selected (click "e4") in
  squares_of (history (st w')) = [(lit "e2", lit "e4")]
  /\ (forall rq, In rq (inflight w') -> In rq (inflight ai_off_e2_selected))
  /\ timers w' = timers ai_off_e2_selected.
Proof.
  split; [vm_compute; reflexivity|].
  apply (@engine_off_sends_no_request engine ai_off_e2_selected (click "e4")).
  - apply rendered_run, rendered_mount.
  - vm_compute. reflexivity.
  - reflexivity.
Defined.

(** Witness of X11: the dialog is open for h7xg8 and a2 is clicked. *)
Lemma pending_promotion_witness :
  step promotion_pending (click "a2") = promotion_pending.
Proof.
  apply (@pending_promotion_blocks_the_board engine promotion_pending (lit "a2")).
  - apply rendered_run, rendered_mount.
  - vm_compute. reflexivity.
Defined.

(** Witness of X12: a promotion choice with no dialog open. *)
Lemma promotion_choice_witness :
  step e2_selected (ChoosePromotion (lit "q")) = e2_selected.
Proof.
  apply (@promotion_choice_needs_dialog_and_selection engine e2_selected (lit "q")).
  - apply rendered_run, rendered_mount.
  - left. vm_compute. reflexivity.
Defined.

(** Witness of X13: after 1. e4 the oracle proposes e2e5; the reference
    rules engine returns null for it. *)
Lemma rejected_suggestion_witness :
  let w := waiting_after_e4 in
  let w' := step w (FetchEnds 0 (reply "bestmove e2e5")) in
  game (st w') = game (st w)
  /\ history (st w') = history (st w)
  /\ busy (st w') = false
  /\ error (st w') = None.
Proof.
  destruct (@rejected_suggestion_is_dropped engine waiting_after_e4 0
              {| rq_game := 0; rq_fen := fen (deref waiting_after_e4 0); rq_depth := 12 |}
              (reply "bestmove e2e5")
              {| eval := Some {| num := 3; den := 10 |}; mate := Some MNull;
                 bestUci := Some (lit "e2e5") |}
              101%N (lit "2e5"))
    as (Hg & _ & Hh & _ & _ & Hb & _ & He).
  - reflexivity.
  - vm_compute. reflexivity.
  - reflexivity.
  - intros g m H. vm_compute in H. discriminate.
  - cbv zeta. split; [exact Hg | split; [exact Hh | split; [exact Hb|]]].
    rewrite He. vm_compute. reflexivity.
Defined.

(** Witness of X14: an answer without a mate member. *)
Lemma mate_member_witness :
  let w' := step waiting_after_e4 (FetchEnds 0 (reply_without_mate "bestmove e7e5")) in
  evalText (evalInfo (st w')) = MateText None.
Proof.
  apply (@mate_member_decides_the_panel engine waiting_after_e4 0
           {| rq_game := 0; rq_fen := fen (deref waiting_after_e4 0); rq_depth := 12 |}
           200%N
           (JObj [(lit "evaluation", MNum {| num := 3; den := 10 |});
                  (lit "bestmove", MStr (lit "bestmove e7e5"))])).
  - reflexivity.
  - reflexivity.
Defined.

(** Witness of X16: after 1. e4 e5 2. Bc4 Nc6 3. Qh5 Nf6 the queen takes
    on f7 with mate: the move is recorded and no request is sent. *)
Lemma a_move_witness :
  let w := mate_in_one in
  let w' := step w (click "f7") in
  (isGameOver (deref w' (game (st w'))) = true
   /\ List.length (history (st w')) = 7
   /\ List.length (inflight w') = 0
   /\ busy (st w') = false)
  /\ (history (st w') = history (st w) /\ game (st w') = game (st w)
      /\ inflight w' = inflight w /\ busy (st w') = busy (st w)
      \/ exists req g m,
           move (deref w (game (st w))) req = Moved g m
           /\ history (st w') = history (st w) ++ [m]
           /\ deref w' (game (st w')) = load (fen g)
           /\ selected (st w') = None
           /\ legalTargets (st w') = []
           /\ if engineEnabled (st w) && negb (isGameOver g)
              then (exists d, inflight w' = inflight w
                      ++ [{| rq_game := game (st w); rq_fen := fen g;
                             rq_depth := capDepth d |}])
                   /\ busy (st w') = true /\ error (st w') = None
              else inflight w' = inflight w
                   /\ busy (st w') = busy (st w) /\ error (st w') = error (st w)).
Proof.
  split; [repeat split; vm_compute; reflexivity|].
  apply (@a_move_is_followed_by_one_request engine mate_in_one (click "f7")).
  - apply rendered_run, rendered_mount.
  - apply coherent_run, coherent_mount.
  - apply game_in_store_run.
  - reflexivity.
Defined.

(** Witness of X17: e2 is selected at depth 12, the depth is set to 8,
    e4 is clicked: the request asks for depth 12. *)
Lemma depth_change_witness :
  let a := step (step e2_selected (ChangeDepth 8)) (click "e4") in
  engineDepth (st a) = 8%Z /\ map rq_depth (inflight a) = [12%Z].
Proof.
  destruct (@depth_change_does_not_reach_the_next_move engine e2_selected 8
              (click "e4")) as (Hi & _ & _ & Hd).
  - apply rendered_run, rendered_mount.
  - reflexivity.
  - cbv zeta. split; [exact Hd|]. rewrite Hi. vm_compute. reflexivity.
Defined.

(** Witness of X18. *)
Lemma flip_twice_witness :
  step (step e2_selected ClickFlip) ClickFlip = e2_selected
  /\ flip (st (step e2_selected ClickFlip)) = true.
Proof.
  destruct (@flip_twice_restores engine e2_selected) as (H & Hf & _).
  - apply rendered_run, rendered_mount.
  - split; [exact H|]. rewrite Hf. vm_compute. reflexivity.
Defined.

